(** * Expense splitter: the settlement engine and its validator

    A shallow embedding of [utils.py], [models.py], [config.py] and of the
    create-expense flow of [app.py].

    Amounts are Python floats in the source.  They are modelled as exact
    rationals ([Q]); every statement below is a statement of exact
    arithmetic, and the rounding of binary64 is outside the model.
    Python objects are mutable and shared: the participants live in a store
    (a list indexed by object identity) and the debtor and creditor lists of
    the engine hold references (indices) into that store, so that the
    updates made by the matching loop are seen through the returned
    participant list, as in the source.
    A request body is a JSON object (the [dict] of the type hint) whose
    values are arbitrary JSON; strings are ASCII text.  The parsers of the
    Python runtime, [float(s)] and [int(s)] on a string, are parameters.
    The database and the notifier are collaborators outside the model. *)

From Stdlib Require Import QArith Qabs Qround Lqa ZArith Lia Ascii String.
From stdpp Require Import base list strings pretty sorting.

Set Warnings "-register-all".
Local Open Scope Q_scope.

(** ** Python outcomes *)

Inductive exn := ZeroDivisionError | ValueError | TypeError | AttributeError | KeyError.

(** A call returns a value, raises, or (in the model only) exhausts the fuel
    given to a [while] loop. *)
Inductive outcome (A : Type) : Type :=
| Returns (a : A)
| Raises (e : exn)
| OutOfFuel.
Arguments Returns {A} a.
Arguments Raises {A} e.
Arguments OutOfFuel {A}.

#[global] Instance outcome_ret : MRet outcome := @Returns.
#[global] Instance outcome_bind : MBind outcome := fun A B k m =>
  match m with
  | Returns a => k a
  | Raises e => Raises e
  | OutOfFuel => OutOfFuel
  end.

(** ** models.py *)

Record Participant := mkParticipant {
  name : string;
  contribution : Q;
  phone_number : option string;
  settlement_amount : Q  (* positive means receives, negative means owes *)
}.

Record Settlement := mkSettlement {
  from_person : string;
  to_person : string;
  amount : Q
}.

#[global] Instance Participant_inhabited : Inhabited Participant :=
  populate (mkParticipant "" 0 None 0).

(** [participant.settlement_amount = v] *)
Definition set_settlement_amount (p : Participant) (v : Q) : Participant :=
  mkParticipant (name p) (contribution p) (phone_number p) v.

(** ** Python arithmetic on amounts *)

#[global] Instance Qlt_dec (x y : Q) : Decision (x < y) :=
  match Qlt_le_dec x y with
  | left H => left H
  | right H => right (Qle_not_lt _ _ H)
  end.

(** [min(a, b)]: the second argument only when it is strictly smaller. *)
Definition py_min (a b : Q) : Q := if Qlt_le_dec b a then b else a.

(** [x / n] for a float [x] and an integer [n]. *)
Definition py_truediv (x : Q) (n : Z) : outcome Q :=
  if (n =? 0)%Z then Raises ZeroDivisionError else Returns (x / inject_Z n).

(** The tolerance of the engine, the literal [0.01]. *)
Definition eps : Q := 1 # 100.

(** ** utils.py: calculate_settlements *)

Section Engine.

Implicit Types (store : list Participant) (k : nat).

(** The balance of the object referenced by [k]. *)
Definition bal (store : list Participant) (k : nat) : Q :=
  settlement_amount (store !!! k).

(** Lines 44-45: every participant gets [contribution - per_person_share]. *)
Definition annotate (per_person_share : Q) (participants : list Participant)
  : list Participant :=
  (fun p => set_settlement_amount p (contribution p - per_person_share))
    <$> participants.

(** [list.sort(key=...)] is stable; so is this insertion sort: an element
    is placed in front of the elements of equal key that followed it. *)
Fixpoint insert_asc (store : list Participant) (x : nat) (l : list nat) : list nat :=
  match l with
  | [] => [x]
  | y :: l' =>
      if decide (bal store y < bal store x)
      then y :: insert_asc store x l'
      else x :: l
  end.

Definition sort_asc (store : list Participant) (l : list nat) : list nat :=
  List.fold_right (insert_asc store) [] l.

(** [list.sort(key=..., reverse=True)]: descending, equal keys keep their
    original order. *)
Fixpoint insert_desc (store : list Participant) (x : nat) (l : list nat) : list nat :=
  match l with
  | [] => [x]
  | y :: l' =>
      if decide (bal store x < bal store y)
      then y :: insert_desc store x l'
      else x :: l
  end.

Definition sort_desc (store : list Participant) (l : list nat) : list nat :=
  List.fold_right (insert_desc store) [] l.

(** Lines 48-49 and 52-53. *)
Definition debtors_of (store : list Participant) : list nat :=
  sort_asc store
    (filter (fun k => bal store k < - eps) (seq 0 (length store))).

Definition creditors_of (store : list Participant) : list nat :=
  sort_desc store
    (filter (fun k => eps < bal store k) (seq 0 (length store))).

(** The variables of the matching loop. *)
Record loop_state := mkLoop {
  st_store : list Participant;
  st_i : nat;
  st_j : nat;
  st_settlements : list Settlement
}.

Variables debtors creditors : list nat.

(** Line 59: [i < len(debtors) and j < len(creditors)]. *)
Definition loop_cond (st : loop_state) : bool :=
  (st_i st <? length debtors)%nat && (st_j st <? length creditors)%nat.

(** Lines 60-82, one iteration. *)
Definition loop_body (st : loop_state) : loop_state :=
  let d := debtors !!! st_i st in
  let c := creditors !!! st_j st in
  let debtor := st_store st !!! d in
  let creditor := st_store st !!! c in
  let debt_amount := Qabs (settlement_amount debtor) in
  let credit_amount := settlement_amount creditor in
  let settlement := py_min debt_amount credit_amount in
  let settlements :=
    st_settlements st ++ [mkSettlement (name debtor) (name creditor) settlement] in
  (* debtor.settlement_amount += settlement_amount *)
  let store1 :=
    <[d := set_settlement_amount debtor (settlement_amount debtor + settlement)]>
      (st_store st) in
  (* creditor.settlement_amount -= settlement_amount *)
  let store2 :=
    <[c := set_settlement_amount (store1 !!! c) (bal store1 c - settlement)]>
      store1 in
  let i := if decide (Qabs (bal store2 d) < eps) then S (st_i st) else st_i st in
  let j := if decide (Qabs (bal store2 c) < eps) then S (st_j st) else st_j st in
  mkLoop store2 i j settlements.

Fixpoint while_loop (fuel : nat) (st : loop_state) : option loop_state :=
  if loop_cond st then
    match fuel with
    | O => None
    | S fuel' => while_loop fuel' (loop_body st)
    end
  else Some st.

End Engine.

(** Lines 56-57: no settlement yet, both pointers at 0. *)
Definition init (store : list Participant) : loop_state := mkLoop store 0 0 [].

Definition calculate_settlements (participants : list Participant) (total_amount : Q)
  : outcome (list Participant * list Settlement) :=
  match participants with
  | [] => Returns ([], [])
  | _ :: _ =>
      per_person_share ← py_truediv total_amount (Z.of_nat (length participants));
      let store := annotate per_person_share participants in
      let debtors := debtors_of store in
      let creditors := creditors_of store in
      match while_loop debtors creditors (length debtors + length creditors)
                       (init store) with
      | Some st => Returns (st_store st, st_settlements st)
      | None => OutOfFuel
      end
  end.

(** The state of the matching loop after [n] iterations. *)
Fixpoint iterate (debtors creditors : list nat) (n : nat) (st : loop_state)
  : loop_state :=
  match n with
  | O => st
  | S n' => iterate debtors creditors n' (loop_body debtors creditors st)
  end.

(** Line 41 and lines 44-45 on their own: the share, and the participants
    as step 2 leaves them. *)
Definition share (participants : list Participant) (total_amount : Q) : Q :=
  total_amount / inject_Z (Z.of_nat (length participants)).

Definition step2 (participants : list Participant) (total_amount : Q)
  : list Participant :=
  annotate (share participants total_amount) participants.

(** ** JSON values, as [request.get_json()] and [to_dict] have them *)

Inductive json :=
| JNull
| JBool (b : bool)
| JInt (z : Z)
| JFloat (q : Q)
| JStr (s : string)
| JList (l : list json)
| JDict (d : list (string * json)).

Definition dict := list (string * json).

Fixpoint dict_get (key : string) (d : dict) : option json :=
  match d with
  | [] => None
  | (k, v) :: d' => if decide (k = key) then Some v else dict_get key d'
  end.

(** [d.get(key, dflt)] *)
Definition dict_get_default (key : string) (dflt : json) (d : dict) : json :=
  default dflt (dict_get key d).

(** ** models.py: Settlement.to_dict *)

(** Rounding to the nearest integer, ties to the even one. *)
Definition round_half_even (x : Q) : Z :=
  let f := Qfloor x in
  let r := x - inject_Z f in
  if decide (r < 1 # 2) then f
  else if decide ((1 # 2) < r) then (f + 1)%Z
  else if Z.even f then f else (f + 1)%Z.

(** [round(x, ndigits)] *)
Definition py_round (x : Q) (ndigits : nat) : Q :=
  let scale := inject_Z (10 ^ Z.of_nat ndigits) in
  inject_Z (round_half_even (x * scale)) / scale.

Definition Settlement_to_dict (s : Settlement) : dict :=
  [("from_person"%string, JStr (from_person s));
   ("to_person"%string, JStr (to_person s));
   ("amount"%string, JFloat (py_round (amount s) 2))].

(** ** config.py *)

Module Config.
Definition MAX_PARTICIPANTS : Z := 50.
Definition MIN_AMOUNT : Q := 1 # 100.
Definition MAX_AMOUNT : Q := 1000000.
End Config.

(** ** Python strings (ASCII text) *)

Definition is_space (c : ascii) : bool :=
  let n := nat_of_ascii c in
  ((9 <=? n) && (n <=? 13) || (28 <=? n) && (n <=? 32))%nat.

Definition is_digit (c : ascii) : bool :=
  let n := nat_of_ascii c in ((48 <=? n) && (n <=? 57))%nat.

Fixpoint lstrip (s : string) : string :=
  match s with
  | EmptyString => EmptyString
  | String c s' => if is_space c then lstrip s' else s
  end.

(** [s.strip()] *)
Definition strip (s : string) : string :=
  String.rev (lstrip (String.rev (lstrip s))).

(** [needle in haystack] for two strings. *)
Fixpoint is_substring (needle haystack : string) : bool :=
  String.prefix needle haystack ||
  match haystack with
  | EmptyString => false
  | String _ rest => is_substring needle rest
  end.

(** [len(re.sub(r'\D', '', phone))] *)
Fixpoint count_digits (s : string) : nat :=
  match s with
  | EmptyString => O
  | String c s' => if is_digit c then S (count_digits s') else count_digits s'
  end.

(** [f"{x:.2f}"] *)
Definition format_2f (x : Q) : string :=
  let z := round_half_even (Qabs x * 100) in
  let cents := (z mod 100)%Z in
  ((if decide (x < 0) then "-" else "") +:+ pretty (z / 100)%Z +:+ "." +:+
   (if (cents <? 10)%Z then "0" else "") +:+ pretty cents)%string.

(** ** utils.py: validate_phone_number *)

Definition validate_phone_number (phone : string) : bool :=
  match phone with
  | EmptyString => false
  | _ => let digits := count_digits phone in
         ((10 <=? digits) && (digits <=? 15))%nat
  end.

(** ** utils.py: format_phone_number *)

(** [re.sub(r'\D', '', phone)] *)
Fixpoint digits_of (s : string) : string :=
  match s with
  | EmptyString => EmptyString
  | String c s' => if is_digit c then String c (digits_of s') else digits_of s'
  end.

Definition format_phone_number (phone : string) : option string :=
  match phone with
  | EmptyString => None
  | _ =>
      let digits := digits_of phone in
      (* no country code: assume +1 *)
      let digits := if (String.length digits =? 10)%nat
                    then ("1" +:+ digits)%string else digits in
      Some ("whatsapp:+" +:+ digits)%string
  end.

Fixpoint all_digits (s : string) : bool :=
  match s with
  | EmptyString => true
  | String c s' => is_digit c && all_digits s'
  end.

(** ** utils.py: send_whatsapp_notification *)

(** The line feed of ["\n"]. *)
Definition nl : string := String "010"%char EmptyString.

(** Lines 112-114: the transfers to the participant, one line each. *)
Fixpoint owed_lines (participant_name : string) (settlements : list Settlement)
  : string :=
  match settlements with
  | [] => EmptyString
  | settlement :: rest =>
      ((if decide (to_person settlement = participant_name)
        then "• " +:+ from_person settlement +:+ " owes you $" +:+
             format_2f (amount settlement) +:+ nl
        else "") +:+ owed_lines participant_name rest)%string
  end.

(** Lines 121-123: the transfers from the participant. *)
Fixpoint pay_lines (participant_name : string) (settlements : list Settlement)
  : string :=
  match settlements with
  | [] => EmptyString
  | settlement :: rest =>
      ((if decide (from_person settlement = participant_name)
        then "• Pay $" +:+ format_2f (amount settlement) +:+ " to " +:+
             to_person settlement +:+ nl
        else "") +:+ pay_lines participant_name rest)%string
  end.

(** Lines 107-126: what the message says of the balance. *)
Definition notification_details (participant : Participant)
    (settlements : list Settlement) : string :=
  (if decide (eps < settlement_amount participant) then
     "You get back $" +:+ format_2f (Qabs (settlement_amount participant)) +:+
     "." +:+ nl +:+ nl +:+ "Settlement details:" +:+ nl +:+
     owed_lines (name participant) settlements
   else if decide (settlement_amount participant < - eps) then
     "You owe $" +:+ format_2f (Qabs (settlement_amount participant)) +:+
     "." +:+ nl +:+ nl +:+ "Settlement details:" +:+ nl +:+
     pay_lines (name participant) settlements
   else
     "You're all settled up! No payments needed." +:+ nl)%string.

(** Lines 105-128. *)
Definition notification_message (participant : Participant)
    (settlements : list Settlement) (month : string) : string :=
  ("Hi " +:+ name participant +:+ "! Your expense split for " +:+ month +:+
   " is ready." +:+ nl +:+ nl +:+
   notification_details participant settlements +:+
   nl +:+ "Reply CONFIRM to acknowledge.")%string.

Section Notifier.

(** Whether both Twilio credentials of the configuration are set, and
    whether Twilio takes a message for an address ([False] stands for the
    exception that the function catches). *)
Variable configured : bool.
Variable deliver : string -> string -> bool.

(** The result, and the address and body handed to Twilio, if any. *)
Definition send_whatsapp_notification (participant : Participant)
    (settlements : list Settlement) (month : string)
  : bool * option (string * string) :=
  if negb configured then (false, None)
  else
    match phone_number participant with
    | None => (false, None)
    | Some phone =>
        match format_phone_number phone with
        | None => (false, None)
        | Some formatted_phone =>
            let message := notification_message participant settlements month in
            (deliver formatted_phone message, Some (formatted_phone, message))
        end
    end.

End Notifier.

(** ** utils.py: validate_expense_data *)

(** [bool(v)] *)
Definition truthy (v : json) : bool :=
  match v with
  | JNull => false
  | JBool b => b
  | JInt z => negb (z =? 0)%Z
  | JFloat q => negb (Qeq_bool q 0)
  | JStr s => negb (String.eqb s "")
  | JList l => match l with [] => false | _ => true end
  | JDict d => match d with [] => false | _ => true end
  end.

Fixpoint chars (s : string) : list json :=
  match s with
  | EmptyString => []
  | String c s' => JStr (String c EmptyString) :: chars s'
  end.

(** The items [for p in v] runs over, whose number is [len(v)]: the elements
    of a list, the characters of a string, the keys of a dict; anything else
    has no [len]. *)
Definition py_iter (v : json) : outcome (list json) :=
  match v with
  | JList l => Returns l
  | JStr s => Returns (chars s)
  | JDict d => Returns (List.map (fun kv => JStr (fst kv)) d)
  | _ => Raises TypeError
  end.

Definition is_name (v : json) : bool :=
  match v with JStr s => String.eqb s "name" | _ => false end.

(** ['name' in p] *)
Definition contains_name (p : json) : outcome bool :=
  match p with
  | JDict d => Returns (bool_decide (is_Some (dict_get "name" d)))
  | JStr s => Returns (is_substring "name" s)
  | JList l => Returns (existsb is_name l)
  | _ => Raises TypeError
  end.

(** [p['name']] *)
Definition subscript_name (p : json) : outcome json :=
  match p with
  | JDict d => match dict_get "name" d with
               | Some v => Returns v
               | None => Raises KeyError
               end
  | _ => Raises TypeError
  end.

(** [p.get(key, dflt)]: only a dict has [get]. *)
Definition py_get (p : json) (key : string) (dflt : json) : outcome json :=
  match p with
  | JDict d => Returns (dict_get_default key dflt d)
  | _ => Raises AttributeError
  end.

(** [v.strip()]: only a string has [strip]. *)
Definition py_strip (v : json) : outcome string :=
  match v with
  | JStr s => Returns (strip s)
  | _ => Raises AttributeError
  end.

Section Validator.

(** The two parsers of the Python runtime, [float(s)] and [int(s)] on a
    string; [None] is their [ValueError]. *)
Variable float_of_string : string -> option Q.
Variable int_of_string : string -> option Z.

(** [float(v)] *)
Definition py_float (v : json) : outcome Q :=
  match v with
  | JFloat q => Returns q
  | JInt z => Returns (inject_Z z)
  | JBool b => Returns (if b then 1 else 0)
  | JStr s => match float_of_string s with
              | Some q => Returns q
              | None => Raises ValueError
              end
  | _ => Raises TypeError
  end.

(** [int(v)]: a float is truncated towards zero. *)
Definition py_int (v : json) : outcome Z :=
  match v with
  | JInt z => Returns z
  | JFloat q => Returns (Z.quot (Qnum q) (Zpos (Qden q)))
  | JBool b => Returns (if b then 1 else 0)%Z
  | JStr s => match int_of_string s with
              | Some z => Returns z
              | None => Raises ValueError
              end
  | _ => Raises TypeError
  end.

(** A stage of the validation either leaves the function with
    [return False, msg] ([inl msg]) or falls through with the values it
    has bound ([inr]). *)

(** [try: body  except (ValueError, TypeError): return False, msg] *)
Definition except_value_type {A} (body : outcome (string + A)) (msg : string)
  : outcome (string + A) :=
  match body with
  | Raises ValueError | Raises TypeError => Returns (inl msg)
  | other => other
  end.

(** Lines 151-176: the required fields, the total and the head count. *)
Definition check_fields (data : dict) : outcome (string + (Q * Z)) :=
  match dict_get "total_amount" data with
  | None => Returns (inl "Total amount is required"%string)
  | Some v_total =>
  match dict_get "num_people" data with
  | None => Returns (inl "Number of people is required"%string)
  | Some v_num =>
    r ← except_value_type
          (total_amount ← py_float v_total;
           if decide (total_amount < Config.MIN_AMOUNT)
           then Returns (inl "Total amount must be at least $0.01"%string)
           else if decide (Config.MAX_AMOUNT < total_amount)
           then Returns (inl "Total amount cannot exceed $1000000"%string)
           else Returns (inr total_amount))
          "Invalid total amount";
    match r with
    | inl msg => Returns (inl msg)
    | inr total_amount =>
      except_value_type
        (num_people ← py_int v_num;
         if (num_people <? 1)%Z
         then Returns (inl "Number of people must be at least 1"%string)
         else if (Config.MAX_PARTICIPANTS <? num_people)%Z
         then Returns (inl "Number of people cannot exceed 50"%string)
         else Returns (inr (total_amount, num_people)))
        "Invalid number of people"
    end
  end
  end.

(** Lines 186-200: the body of the loop over the participants, from the
    running sum to the next one. *)
Definition check_participant (p : json) (total_contributions : Q)
  : outcome (string + Q) :=
  has_name ← contains_name p;
  if negb has_name
  then Returns (inl "All participants must have a name"%string)
  else
    v_name ← subscript_name p;
    stripped ← py_strip v_name;
    match stripped with
    | EmptyString => Returns (inl "All participants must have a name"%string)
    | _ =>
      let p_name := match v_name with JStr s => s | _ => EmptyString end in
      v_contribution ← py_get p "contribution" (JInt 0);
      r ← except_value_type
            (contribution ← py_float v_contribution;
             if decide (contribution < 0)
             then Returns (inl ("Contribution for " +:+ p_name +:+
                                " cannot be negative")%string)
             else Returns (inr (total_contributions + contribution)))
            ("Invalid contribution amount for " +:+ p_name);
      match r with
      | inl msg => Returns (inl msg)
      | inr total_contributions' =>
        v_phone ← py_get p "phone_number" (JStr "");
        phone ← py_strip v_phone;
        if negb (String.eqb phone "") && negb (validate_phone_number phone)
        then Returns (inl ("Invalid phone number for " +:+ p_name)%string)
        else Returns (inr total_contributions')
      end
    end.

(** Lines 185-200: [for p in participants]. *)
Fixpoint check_participants (items : list json) (total_contributions : Q)
  : outcome (string + Q) :=
  match items with
  | [] => Returns (inr total_contributions)
  | p :: rest =>
      r ← check_participant p total_contributions;
      match r with
      | inl msg => Returns (inl msg)
      | inr total_contributions' => check_participants rest total_contributions'
      end
  end.

Definition sum_mismatch_message (total_contributions total_amount : Q) : string :=
  ("Sum of contributions ($" +:+ format_2f total_contributions +:+
   ") must equal total amount ($" +:+ format_2f total_amount +:+ ")")%string.

Definition validate_expense_data (data : dict) : outcome (bool * string) :=
  r ← check_fields data;
  match r with
  | inl msg => Returns (false, msg)
  | inr (total_amount, num_people) =>
    let participants := dict_get_default "participants" (JList []) data in
    if truthy participants then
      items ← py_iter participants;
      if negb (Z.of_nat (length items) =? num_people)%Z
      then Returns (false,
             ("Number of participants (" +:+ pretty (length items) +:+
              ") must match num_people (" +:+ pretty num_people +:+ ")")%string)
      else
        r ← check_participants items 0;
        match r with
        | inl msg => Returns (false, msg)
        | inr total_contributions =>
          (* line 203 *)
          if decide ((1 # 100) < Qabs (total_contributions - total_amount))
          then Returns (false,
                        sum_mismatch_message total_contributions total_amount)
          else Returns (true, EmptyString)
        end
    else Returns (true, EmptyString)
  end.

End Validator.

(** ** app.py: create_expense *)

(** The calls the flow makes to its collaborators.  The database and the
    notifier are outside the model: their calls are recorded, not run. *)
Inductive event :=
| EngineCalled (participants : list Participant) (total_amount : Q)
| ExpenseSaved (participants : list Participant)
| NotificationRequested (participant : Participant).

Inductive response :=
| Created (participants : list Participant) (settlements : list dict)  (* 201 *)
| BadRequest (error : string)                                          (* 400 *)
| ServerError (e : exn)                                                (* 500 *)
| NoResponse.

Section CreateExpense.

Variable float_of_string : string -> option Q.
Variable int_of_string : string -> option Z.

(** Lines 50-54. *)
Definition build_participant (p_data : json) : outcome Participant :=
  v_name ← subscript_name p_data;
  p_name ← py_strip v_name;
  v_contribution ← py_get p_data "contribution" (JInt 0);
  p_contribution ← py_float float_of_string v_contribution;
  v_phone ← py_get p_data "phone_number" (JStr "");
  phone ← py_strip v_phone;
  Returns (mkParticipant p_name p_contribution
             (if String.eqb phone "" then None else Some phone) 0).

Fixpoint build_participants (items : list json) : outcome (list Participant) :=
  match items with
  | [] => Returns []
  | p_data :: rest =>
      participant ← build_participant p_data;
      participants ← build_participants rest;
      Returns (participant :: participants)
  end.

(** Lines 58-65: [num_people] participants with an equal contribution. *)
Definition default_participants (total_amount : Q) (num_people : Z)
  : outcome (list Participant) :=
  per_person ← py_truediv total_amount num_people;
  Returns (List.map
             (fun i => mkParticipant ("Person " +:+ pretty (i + 1)%nat)
                                     per_person None 0)
             (seq 0 (Z.to_nat num_people))).

(** Lines 39-65. *)
Definition prepare (data : dict) : outcome (list Participant * Q) :=
  v_total ← match dict_get "total_amount" data with
            | Some v => Returns v | None => Raises KeyError end;
  total_amount ← py_float float_of_string v_total;
  v_num ← match dict_get "num_people" data with
          | Some v => Returns v | None => Raises KeyError end;
  num_people ← py_int int_of_string v_num;
  let participants_data := dict_get_default "participants" (JList []) data in
  participants ←
    (if truthy participants_data
     then items ← py_iter participants_data; build_participants items
     else default_participants total_amount num_people);
  Returns (participants, total_amount).

(** Lines 85-96: who is notified. *)
Definition notifications (data : dict) (participants : list Participant)
  : list event :=
  if truthy (dict_get_default "send_notifications" (JBool false) data)
  then List.map NotificationRequested
         (List.filter (fun p => match phone_number p with
                                | Some ph => negb (String.eqb ph "")
                                | None => false
                                end) participants)
  else [].

(** The flow, with the calls it has made; [except Exception] turns what is
    raised into the response 500. *)
Definition create_expense (data : dict) : list event * response :=
  match validate_expense_data float_of_string int_of_string data with
  | Returns (false, error_message) => ([], BadRequest error_message)
  | Returns (true, _) =>
      match prepare data with
      | Returns (participants, total_amount) =>
          match calculate_settlements participants total_amount with
          | Returns (participants', settlements) =>
              (EngineCalled participants total_amount
                 :: ExpenseSaved participants'
                 :: notifications data participants',
               Created participants' (List.map Settlement_to_dict settlements))
          | Raises e => ([EngineCalled participants total_amount], ServerError e)
          | OutOfFuel => ([EngineCalled participants total_amount], NoResponse)
          end
      | Raises e => ([], ServerError e)
      | OutOfFuel => ([], NoResponse)
      end
  | Raises e => ([], ServerError e)
  | OutOfFuel => ([], NoResponse)
  end.

Definition is_engine_call (e : event) : bool :=
  match e with EngineCalled _ _ => true | _ => false end.

End CreateExpense.

(** ** Sums over the store and over the transfers *)

Definition sum_bal (store : list Participant) : Q :=
  foldr (fun p acc => settlement_amount p + acc) 0 store.

Definition sum_contribution (participants : list Participant) : Q :=
  foldr (fun p acc => contribution p + acc) 0 participants.

(** What the transfers pay to the name [s], and what they take from it. *)
Definition received (ts : list Settlement) (s : string) : Q :=
  foldr (fun t acc => if decide (to_person t = s) then amount t + acc else acc) 0 ts.

Definition paid (ts : list Settlement) (s : string) : Q :=
  foldr (fun t acc => if decide (from_person t = s) then amount t + acc else acc) 0 ts.

Definition net (ts : list Settlement) (s : string) : Q := received ts s - paid ts s.

(** Two participants that differ at most in [settlement_amount]. *)
Definition same_input (p q : Participant) : Prop :=
  name p = name q /\ contribution p = contribution q /\
  phone_number p = phone_number q.

(** The order of the sorted debtor list: by balance, the smaller first, and
    for equal balances by position in the participant list.  The order of
    the sorted creditor list: the larger balance first. *)
Definition before_asc (store : list Participant) (a b : nat) : Prop :=
  bal store a < bal store b \/ (bal store a == bal store b /\ (a < b)%nat).

Definition before_desc (store : list Participant) (a b : nat) : Prop :=
  bal store b < bal store a \/ (bal store a == bal store b /\ (a < b)%nat).

(** Every balance of the store lies between zero and what step 2 made of
    it. *)
Definition toward_zero (store0 : list Participant) (st : loop_state) : Prop :=
  forall k,
    (bal store0 k <= bal (st_store st) k /\ bal (st_store st) k <= 0) \/
    (0 <= bal (st_store st) k /\ bal (st_store st) k <= bal store0 k).

(** The balance a participant is returned with, against its step-2 balance
    [b]. *)
Definition between_zero_and (b : Q) (p' : Participant) : Prop :=
  (b <= settlement_amount p' /\ settlement_amount p' <= 0) \/
  (0 <= settlement_amount p' /\ settlement_amount p' <= b).

(** An amount in whole cents: an integer multiple of 0.01. *)
Definition is_cents (q : Q) : Prop := exists z : Z, q == inject_Z z * eps.

Definition all_cents (st : loop_state) : Prop :=
  forall k, is_cents (bal (st_store st) k).

(** The net transfers of the participant of index [k] are within the
    tolerance of its balance, for both readings of that balance: the [settlement_amount] it is returned with, and
    [contribution - share]. *)
Definition nets_match_balance (participants : list Participant) (total : Q)
    (k : nat) : Prop :=
  exists ps' ts p',
    calculate_settlements participants total = Returns (ps', ts) /\
    ps' !! k = Some p' /\
    (Qabs (net ts (name p') - settlement_amount p') <= eps \/
     Qabs (net ts (name p') - (contribution p' - share participants total))
     <= eps).

(** ** The invariant of the matching loop *)

Section LoopInvariant.

(** The store as step 2 leaves it, and the two sorted lists. *)
Variable store0 : list Participant.
Variables debtors creditors : list nat.

(** A transfer of the matching: at least [eps], from a debtor to a
    creditor. *)
Definition good_transfer (t : Settlement) : Prop :=
  eps <= amount t /\
  exists d c, d ∈ debtors /\ c ∈ creditors /\
    from_person t = name (store0 !!! d) /\ to_person t = name (store0 !!! c).

Record inv (st : loop_state) : Prop := mkInv {
  inv_length : length (st_store st) = length store0;
  inv_fields : forall k,
    name (st_store st !!! k) = name (store0 !!! k) /\
    contribution (st_store st !!! k) = contribution (store0 !!! k) /\
    phone_number (st_store st !!! k) = phone_number (store0 !!! k);
  inv_i : (st_i st <= length debtors)%nat;
  inv_j : (st_j st <= length creditors)%nat;
  (* debtors behind the pointer are settled, the others still owe *)
  inv_debtors : forall p k, debtors !! p = Some k ->
    ((p < st_i st)%nat -> - eps < bal (st_store st) k /\ bal (st_store st) k <= 0) /\
    ((st_i st <= p)%nat -> bal (st_store st) k <= - eps);
  inv_creditors : forall p k, creditors !! p = Some k ->
    ((p < st_j st)%nat -> 0 <= bal (st_store st) k /\ bal (st_store st) k < eps) /\
    ((st_j st <= p)%nat -> eps <= bal (st_store st) k);
  inv_others : forall k, k ∉ debtors -> k ∉ creditors ->
    st_store st !!! k = store0 !!! k;
  inv_transfers : Forall good_transfer (st_settlements st);
  inv_count : (length (st_settlements st) <= st_i st + st_j st)%nat;
  inv_bound :
    (length (st_settlements st) <= length debtors + length creditors - 1)%nat;
  inv_sum : sum_bal (st_store st) == sum_bal store0
}.

(** What a participant has received, less what it has paid, is what its
    balance has lost since step 2. *)
Definition inv_net (st : loop_state) : Prop :=
  forall k, (k < length store0)%nat ->
    bal (st_store st) k + net (st_settlements st) (name (store0 !!! k))
    == bal store0 k.

End LoopInvariant.

(** The contribution the validator reads from a participant,
    [float(p.get('contribution', 0))], and the sum it accumulates over the
    participants, from 0 and from left to right. *)
Definition contribution_of (float_of_string : string -> option Q) (p : json) : Q :=
  match py_get p "contribution" (JInt 0) ≫= py_float float_of_string with
  | Returns q => q
  | _ => 0
  end.

Definition contributions_sum (float_of_string : string -> option Q)
    (items : list json) : Q :=
  fold_left (fun acc p => acc + contribution_of float_of_string p) items 0.

(** ** models.py: Participant.to_dict and Expense *)

Definition Participant_to_dict (p : Participant) : dict :=
  [("name"%string, JStr (name p));
   ("contribution"%string, JFloat (contribution p));
   ("phone_number"%string,
    match phone_number p with Some ph => JStr ph | None => JNull end);
   ("settlement_amount"%string, JFloat (settlement_amount p))].

Module Expense.
Section WithDatetime.

(** [datetime] belongs to the Python library and stays abstract. *)
Variable datetime : Type.

Record t := mk {
  id : option Z;
  total_amount : Q;
  num_people : Z;
  description : string;
  created_at : datetime;
  participants : list Participant
}.

End WithDatetime.
Arguments mk {datetime}.
Arguments id {datetime}.
Arguments total_amount {datetime}.
Arguments num_people {datetime}.
Arguments description {datetime}.
Arguments created_at {datetime}.
Arguments participants {datetime}.
End Expense.

(** ** database.py *)

(** [p[key]] *)
Definition subscript (p : json) (key : string) : outcome json :=
  match p with
  | JDict d => match dict_get key d with
               | Some v => Returns v
               | None => Raises KeyError
               end
  | _ => Raises TypeError
  end.

(** Lines 80-85, 120-125, 155-160: the [Participant] made of a stored
    dict.  The dataclass takes any value for a field; the record of the
    model is typed, and a value that is not of the type of its field has no
    counterpart in it: it is reported as [TypeError]. *)
Definition participant_of_dict (p : json) : outcome Participant :=
  v_name ← subscript p "name";
  v_contribution ← subscript p "contribution";
  v_phone ← py_get p "phone_number" JNull;
  v_settlement ← subscript p "settlement_amount";
  match v_name, v_contribution, v_settlement with
  | JStr s, JFloat c, JFloat a =>
      match v_phone with
      | JNull => Returns (mkParticipant s c None a)
      | JStr ph => Returns (mkParticipant s c (Some ph) a)
      | _ => Raises TypeError
      end
  | _, _, _ => Raises TypeError
  end.

Fixpoint participants_of_dicts (l : list json) : outcome (list Participant) :=
  match l with
  | [] => Returns []
  | p :: rest =>
      participant ← participant_of_dict p;
      participants ← participants_of_dicts rest;
      Returns (participant :: participants)
  end.

(** A row of the table [expenses].  The column [participants_data] holds
    the text [json.dumps] makes of a list of dicts and [json.loads] reads
    back; the model keeps the list itself. *)
Record row := mkRow {
  row_id : Z;
  row_total_amount : Q;
  row_num_people : Z;
  row_description : string;
  row_created_at : string;
  row_participants_data : list json
}.

(** The table, in the order of insertion, and the largest id ever given
    (the counter of [AUTOINCREMENT]). *)
Record database := mkDatabase {
  rows : list row;
  last_id : Z
}.

(** [init_db] on a new file. *)
Definition empty_database : database := mkDatabase [] 0.

Section Database.

Variable datetime : Type.
(** [d.isoformat()] and [datetime.fromisoformat(s)]. *)
Variable isoformat : datetime -> string.
Variable fromisoformat : string -> outcome datetime.

Definition save_expense (db : database) (expense : Expense.t datetime)
  : database * Z :=
  let participants_json :=
    List.map (fun p => JDict (Participant_to_dict p))
             (Expense.participants expense) in
  let expense_id := (last_id db + 1)%Z in
  (mkDatabase
     (rows db ++ [mkRow expense_id (Expense.total_amount expense)
                    (Expense.num_people expense) (Expense.description expense)
                    (isoformat (Expense.created_at expense)) participants_json])
     expense_id,
   expense_id).

(** Lines 153-171: the [Expense] made of a row. *)
Definition expense_of_row (r : row) : outcome (Expense.t datetime) :=
  participants ← participants_of_dicts (row_participants_data r);
  created_at ← fromisoformat (row_created_at r);
  Returns (Expense.mk (Some (row_id r)) (row_total_amount r) (row_num_people r)
             (row_description r) created_at participants).

(** [SELECT * FROM expenses WHERE id = ?] and [fetchone]. *)
Definition select_by_id (db : database) (expense_id : Z) : option row :=
  List.find (fun r => (row_id r =? expense_id)%Z) (rows db).

Definition get_expense_by_id (db : database) (expense_id : Z)
  : outcome (option (Expense.t datetime)) :=
  match select_by_id db expense_id with
  | None => Returns None
  | Some r => expense ← expense_of_row r; Returns (Some expense)
  end.


(** The ids of the table are distinct and none exceeds the counter. *)
Definition database_ok (db : database) : Prop :=
  NoDup (row_id <$> rows db) /\
  Forall (fun r => (row_id r <= last_id db)%Z) (rows db).

(** ** app.py: get_expense and get_history_months *)

Inductive get_response :=
| Found (expense : Expense.t datetime) (settlements : list dict)  (* 200 *)
| NotFound                                                        (* 404 *)
| GetError (e : exn)                                              (* 500 *)
| GetNoResponse.

(** Lines 135-148.  The engine works on the participants of the expense
    themselves, so the expense is serialized with the balances the
    recalculation has left. *)
Definition get_expense (db : database) (expense_id : Z) : get_response :=
  match get_expense_by_id db expense_id with
  | Returns None => NotFound
  | Returns (Some expense) =>
      match calculate_settlements (Expense.participants expense)
                                  (Expense.total_amount expense) with
      | Returns (participants, settlements) =>
          Found (Expense.mk (Expense.id expense) (Expense.total_amount expense)
                   (Expense.num_people expense) (Expense.description expense)
                   (Expense.created_at expense) participants)
                (List.map Settlement_to_dict settlements)
      | Raises e => GetError e
      | OutOfFuel => GetNoResponse
      end
  | Raises e => GetError e
  | OutOfFuel => GetNoResponse
  end.

(** [d.year] and [d.month]. *)
Variable year_of : datetime -> Z.
Variable month_of : datetime -> Z.

(** The order of Python on pairs. *)
Definition pair_lt (a b : Z * Z) : Prop :=
  (fst a < fst b)%Z \/ (fst a = fst b /\ (snd a < snd b)%Z).

Definition pair_ltb (a b : Z * Z) : bool :=
  (fst a <? fst b)%Z || ((fst a =? fst b)%Z && (snd a <? snd b)%Z).

(** [sorted(..., reverse=True)] on pairs, by insertion. *)
Fixpoint insert_pair_desc (x : Z * Z) (l : list (Z * Z)) : list (Z * Z) :=
  match l with
  | [] => [x]
  | y :: l' => if pair_ltb x y then y :: insert_pair_desc x l' else x :: l
  end.

Definition sorted_pairs_desc (l : list (Z * Z)) : list (Z * Z) :=
  List.fold_right insert_pair_desc [] l.

(** Lines 180-186: the set of the (year, month) of the expenses, sorted,
    the latest first. *)
Definition history_months (expenses : list (Expense.t datetime))
  : list (Z * Z) :=
  sorted_pairs_desc
    (remove_dups
       (List.map (fun e => (year_of (Expense.created_at e),
                            month_of (Expense.created_at e)))
                 expenses)).

End Database.

(** A participant of a request as the validator accepts it, and the
    [Participant] that [create_expense] makes of it: a JSON object with a
    string name that is not blank, a contribution that is not negative, and
    a phone number that is blank or valid once stripped. *)
Definition accepted_participant (float_of_string : string -> option Q)
    (p_data : json) (participant : Participant) : Prop :=
  exists d s ph,
    p_data = JDict d /\
    dict_get "name" d = Some (JStr s) /\
    strip s <> EmptyString /\
    py_float float_of_string (dict_get_default "contribution" (JInt 0) d)
      = Returns (contribution participant) /\
    0 <= contribution participant /\
    py_strip (dict_get_default "phone_number" (JStr "") d) = Returns ph /\
    (ph = EmptyString \/ validate_phone_number ph = true) /\
    participant
    = mkParticipant (strip s) (contribution participant)
        (if String.eqb ph "" then None else Some ph) 0.

(** A participant as the engine gets it from [create_expense]. *)
Definition well_formed_participant (p : Participant) : Prop :=
  name p <> EmptyString /\ 0 <= contribution p /\ settlement_amount p = 0 /\
  match phone_number p with
  | None => True
  | Some ph => ph <> EmptyString /\ validate_phone_number ph = true
  end.

(** ** Example inputs *)

Module Examples.

(** The example of the specification, with the total 90. *)
Definition abc : list Participant :=
  [mkParticipant "A" 0 None 0; mkParticipant "B" 30 None 0;
   mkParticipant "C" 60 None 0].

(** An equal split of 90. *)
Definition equal_split : list Participant :=
  [mkParticipant "A" 30 None 0; mkParticipant "B" 30 None 0;
   mkParticipant "C" 30 None 0].

(** Three small debts against one credit, with the total 4.  All amounts
    are multiples of 1/128, exact in binary floating point as well. *)
Definition small_debts : list Participant :=
  [mkParticipant "A" (127 # 128) None 0; mkParticipant "B" (127 # 128) None 0;
   mkParticipant "C" (127 # 128) None 0; mkParticipant "D" (131 # 128) None 0].

(** Two participants of the same name, with the total 60. *)
Definition same_name : list Participant :=
  [mkParticipant "A" 0 None 0; mkParticipant "A" 0 None 0;
   mkParticipant "C" 60 None 0].

(** Nothing paid yet of a total of 90. *)
Definition unpaid : list Participant :=
  [mkParticipant "A" 0 None 0; mkParticipant "B" 0 None 0].

(** The two parsers, on the numerals these examples need. *)
Definition float_of_string (s : string) : option Q :=
  if String.eqb s "90" then Some 90 else None.
Definition int_of_string (s : string) : option Z :=
  if String.eqb s "3" then Some 3%Z else None.

Definition person (n : string) (c : Z) : json :=
  JDict [("name"%string, JStr n); ("contribution"%string, JInt c)].

(** A request for [abc], and one whose contributions sum to 80 only. *)
Definition request_abc : dict :=
  [("total_amount"%string, JFloat 90); ("num_people"%string, JInt 3);
   ("participants"%string, JList [person "A" 0; person "B" 30; person "C" 60])].


(** The request for [abc] with a phone number for C, and the notifications
    asked for. *)
Definition request_notify : dict :=
  [("total_amount"%string, JFloat 90); ("num_people"%string, JInt 3);
   ("participants"%string,
    JList [person "A" 0; person "B" 30;
           JDict [("name"%string, JStr "C"); ("contribution"%string, JInt 60);
                  ("phone_number"%string, JStr " (555) 123-4567 ")]]);
   ("send_notifications"%string, JBool true)].

Definition request_short : dict :=
  [("total_amount"%string, JFloat 90); ("num_people"%string, JInt 3);
   ("participants"%string, JList [person "A" 0; person "B" 30; person "C" 50])].

End Examples.

(** * Proofs *)

(** ** Reading and writing the store *)

Lemma bal_insert_eq store k p v :
  (k < length store)%nat ->
  bal (<[k := set_settlement_amount p v]> store) k = v.
Proof.
  intros Hk. unfold bal. by rewrite list_lookup_total_insert_eq.
Qed.

Lemma bal_insert_ne store k k' x :
  k <> k' -> bal (<[k := x]> store) k' = bal store k'.
Proof.
  intros Hne. unfold bal. by rewrite list_lookup_total_insert_ne.
Qed.

(** ** The partition and the two sorts *)

Lemma insert_asc_perm store x l : insert_asc store x l ≡ₚ x :: l.
Proof.
  induction l as [|y l IH]; simpl; [done|].
  case_decide; [|done].
  rewrite IH. apply Permutation_swap.
Qed.

Lemma sort_asc_perm store l : sort_asc store l ≡ₚ l.
Proof.
  induction l as [|x l IH]; simpl; [done|].
  by rewrite insert_asc_perm, IH.
Qed.

Lemma insert_desc_perm store x l : insert_desc store x l ≡ₚ x :: l.
Proof.
  induction l as [|y l IH]; simpl; [done|].
  case_decide; [|done].
  rewrite IH. apply Permutation_swap.
Qed.

Lemma sort_desc_perm store l : sort_desc store l ≡ₚ l.
Proof.
  induction l as [|x l IH]; simpl; [done|].
  by rewrite insert_desc_perm, IH.
Qed.

Lemma debtors_of_spec store k :
  k ∈ debtors_of store <-> (k < length store)%nat /\ bal store k < - eps.
Proof.
  unfold debtors_of. rewrite sort_asc_perm, list_elem_of_filter, elem_of_seq.
  split; intros; intuition lia.
Qed.

Lemma creditors_of_spec store k :
  k ∈ creditors_of store <-> (k < length store)%nat /\ eps < bal store k.
Proof.
  unfold creditors_of. rewrite sort_desc_perm, list_elem_of_filter, elem_of_seq.
  split; intros; intuition lia.
Qed.

Lemma debtors_of_NoDup store : NoDup (debtors_of store).
Proof.
  unfold debtors_of. rewrite sort_asc_perm.
  apply NoDup_filter, NoDup_seq.
Qed.

Lemma creditors_of_NoDup store : NoDup (creditors_of store).
Proof.
  unfold creditors_of. rewrite sort_desc_perm.
  apply NoDup_filter, NoDup_seq.
Qed.

(** ** Arithmetic helpers *)

Lemma py_min_spec a b :
  (py_min a b = a /\ a <= b) \/ (py_min a b = b /\ b < a).
Proof. unfold py_min. destruct (Qlt_le_dec b a); auto. Qed.

Lemma Qabs_lt_eps_iff x : x <= 0 -> (Qabs x < eps <-> - eps < x).
Proof.
  intros Hx. rewrite (Qabs_neg x Hx). split; intros; lra.
Qed.

Lemma Qabs_lt_eps_iff_pos x : 0 <= x -> (Qabs x < eps <-> x < eps).
Proof.
  intros Hx. by rewrite (Qabs_pos x Hx).
Qed.

(** ** A proof rule for the [while] loop *)

Lemma while_loop_rule debtors creditors (P : loop_state -> Prop)
    (measure : loop_state -> nat) :
  (forall st, P st -> loop_cond debtors creditors st = true ->
     P (loop_body debtors creditors st) /\
     (measure (loop_body debtors creditors st) < measure st)%nat) ->
  forall fuel st, P st -> (measure st <= fuel)%nat ->
    exists st', while_loop debtors creditors fuel st = Some st' /\
                P st' /\ loop_cond debtors creditors st' = false.
Proof.
  intros Hstep fuel. induction fuel as [|fuel IH]; intros st HP Hm; simpl.
  - destruct (loop_cond debtors creditors st) eqn:Hc; [|eauto].
    destruct (Hstep st HP Hc) as [_ Hlt]. lia.
  - destruct (loop_cond debtors creditors st) eqn:Hc; [|eauto].
    destruct (Hstep st HP Hc) as [HP' Hlt].
    apply IH; [done | lia].
Qed.

Lemma iterate_S debtors creditors n st :
  iterate debtors creditors (S n) st
  = loop_body debtors creditors (iterate debtors creditors n st).
Proof.
  revert st. induction n as [|n IH]; intros st; [done|].
  change (iterate debtors creditors (S (S n)) st)
    with (iterate debtors creditors (S n) (loop_body debtors creditors st)).
  by rewrite IH.
Qed.

(** A loop that ends has run some number of iterations within its fuel: the
    condition held before each of them and fails after the last. *)
Lemma while_loop_iterate debtors creditors fuel st st' :
  while_loop debtors creditors fuel st = Some st' ->
  exists n, (n <= fuel)%nat /\ st' = iterate debtors creditors n st /\
    loop_cond debtors creditors st' = false /\
    forall m, (m < n)%nat ->
      loop_cond debtors creditors (iterate debtors creditors m st) = true.
Proof.
  revert st. induction fuel as [|fuel IH]; intros st; simpl.
  - destruct (loop_cond debtors creditors st) eqn:Hc; [done|].
    intros [= <-]. exists 0%nat. repeat split; [lia|done|]. intros m Hm. lia.
  - destruct (loop_cond debtors creditors st) eqn:Hc.
    + intros Hrun. destruct (IH _ Hrun) as (n & Hn & -> & Hend & Hbefore).
      exists (S n). repeat split; [lia|done|].
      intros [|m] Hm; [done|]. apply Hbefore. lia.
    + intros [= <-]. exists 0%nat. repeat split; [lia|done|]. intros m Hm. lia.
Qed.

(** ** Sums over the store and over the transfers: lemmas *)

Lemma sum_bal_insert store k x :
  (k < length store)%nat ->
  sum_bal (<[k := x]> store) == sum_bal store - bal store k + settlement_amount x.
Proof.
  revert k. induction store as [|p store IH]; intros k Hk; simpl in *; [lia|].
  destruct k as [|k]; simpl.
  - unfold bal. simpl. lra.
  - rewrite IH by lia. unfold bal. simpl. lra.
Qed.

Lemma received_snoc ts t s :
  received (ts ++ [t]) s ==
  received ts s + (if decide (to_person t = s) then amount t else 0).
Proof.
  unfold received. induction ts as [|u ts IH]; simpl.
  - case_decide; lra.
  - destruct (decide (to_person t = s)), (decide (to_person u = s)); lra.
Qed.

Lemma paid_snoc ts t s :
  paid (ts ++ [t]) s ==
  paid ts s + (if decide (from_person t = s) then amount t else 0).
Proof.
  unfold paid. induction ts as [|u ts IH]; simpl.
  - case_decide; lra.
  - destruct (decide (from_person t = s)), (decide (from_person u = s)); lra.
Qed.

(** ** One iteration of the matching loop *)

Section Iteration.

Variables debtors creditors : list nat.

(** What one iteration does to the store, the pointers and the transfer
    list, when the two current references are distinct objects. *)
Lemma loop_body_facts st d c :
  debtors !! st_i st = Some d ->
  creditors !! st_j st = Some c ->
  d <> c ->
  (d < length (st_store st))%nat ->
  (c < length (st_store st))%nat ->
  let st' := loop_body debtors creditors st in
  let a := py_min (Qabs (bal (st_store st) d)) (bal (st_store st) c) in
  length (st_store st') = length (st_store st) /\
  bal (st_store st') d = bal (st_store st) d + a /\
  bal (st_store st') c = bal (st_store st) c - a /\
  (forall k, k <> d -> k <> c -> st_store st' !!! k = st_store st !!! k) /\
  (forall k, name (st_store st' !!! k) = name (st_store st !!! k) /\
             contribution (st_store st' !!! k) = contribution (st_store st !!! k) /\
             phone_number (st_store st' !!! k) = phone_number (st_store st !!! k)) /\
  st_i st' = (if decide (Qabs (bal (st_store st') d) < eps)
              then S (st_i st) else st_i st) /\
  st_j st' = (if decide (Qabs (bal (st_store st') c) < eps)
              then S (st_j st) else st_j st) /\
  st_settlements st' =
    st_settlements st ++
      [mkSettlement (name (st_store st !!! d)) (name (st_store st !!! c)) a] /\
  sum_bal (st_store st') == sum_bal (st_store st).
Proof.
  intros Hd Hc Hne Hdl Hcl. cbv zeta. unfold loop_body.
  rewrite (list_lookup_total_correct _ _ _ Hd).
  rewrite (list_lookup_total_correct _ _ _ Hc).
  cbn [st_store st_i st_j st_settlements].
  set (a := py_min _ _).
  set (store1 := <[d := _]> (st_store st)).
  assert (Hl1 : length store1 = length (st_store st))
    by (unfold store1; apply length_insert).
  assert (Hb1c : bal store1 c = bal (st_store st) c)
    by (unfold store1; by apply bal_insert_ne).
  assert (Hb1d : bal store1 d = bal (st_store st) d + a)
    by (unfold store1; by apply bal_insert_eq).
  repeat split.
  - by rewrite length_insert.
  - rewrite bal_insert_ne by done. exact Hb1d.
  - rewrite bal_insert_eq by lia. by rewrite Hb1c.
  - intros k Hkd Hkc. rewrite list_lookup_total_insert_ne by done.
    unfold store1. by rewrite list_lookup_total_insert_ne.
  - destruct (decide (k = c)) as [->|Hkc].
    + rewrite list_lookup_total_insert_eq by lia. simpl.
      unfold store1. by rewrite list_lookup_total_insert_ne.
    + rewrite list_lookup_total_insert_ne by done. unfold store1.
      destruct (decide (k = d)) as [->|Hkd].
      * by rewrite list_lookup_total_insert_eq.
      * by rewrite list_lookup_total_insert_ne.
  - destruct (decide (k = c)) as [->|Hkc].
    + rewrite list_lookup_total_insert_eq by lia. simpl.
      unfold store1. by rewrite list_lookup_total_insert_ne.
    + rewrite list_lookup_total_insert_ne by done. unfold store1.
      destruct (decide (k = d)) as [->|Hkd].
      * by rewrite list_lookup_total_insert_eq.
      * by rewrite list_lookup_total_insert_ne.
  - destruct (decide (k = c)) as [->|Hkc].
    + rewrite list_lookup_total_insert_eq by lia. simpl.
      unfold store1. by rewrite list_lookup_total_insert_ne.
    + rewrite list_lookup_total_insert_ne by done. unfold store1.
      destruct (decide (k = d)) as [->|Hkd].
      * by rewrite list_lookup_total_insert_eq.
      * by rewrite list_lookup_total_insert_ne.
  - rewrite sum_bal_insert by lia. simpl. rewrite Hb1c.
    unfold store1. rewrite sum_bal_insert by lia. simpl.
    unfold bal. lra.
Qed.

End Iteration.

(** ** The matching loop keeps its invariant *)

Section Matching.

Variable store0 : list Participant.
Variables debtors creditors : list nat.

Hypothesis debtors_NoDup : NoDup debtors.
Hypothesis creditors_NoDup : NoDup creditors.
Hypothesis debtors_spec :
  forall k, k ∈ debtors -> (k < length store0)%nat /\ bal store0 k < - eps.
Hypothesis creditors_spec :
  forall k, k ∈ creditors -> (k < length store0)%nat /\ eps < bal store0 k.

Local Abbreviation inv := (inv store0 debtors creditors).
Local Abbreviation init := (init store0).
Local Abbreviation inv_net := (inv_net store0).

Lemma debtor_not_creditor d c : d ∈ debtors -> c ∈ creditors -> d <> c.
Proof.
  intros Hd Hc ->. apply debtors_spec in Hd as [_ Hd].
  apply creditors_spec in Hc as [_ Hc]. unfold eps in *. lra.
Qed.

Lemma inv_init : inv init.
Proof.
  split; simpl; try done; try lia.
  - intros p k Hk. split; [lia|]. intros _.
    apply list_elem_of_lookup_2, debtors_spec in Hk as [_ Hk]. lra.
  - intros p k Hk. split; [lia|]. intros _.
    apply list_elem_of_lookup_2, creditors_spec in Hk as [_ Hk]. lra.
Qed.

(** The current debtor and creditor of a state in which the loop goes on. *)
Lemma loop_cond_current st :
  loop_cond debtors creditors st = true ->
  exists d c, debtors !! st_i st = Some d /\ creditors !! st_j st = Some c /\
              (st_i st < length debtors)%nat /\ (st_j st < length creditors)%nat.
Proof.
  unfold loop_cond. rewrite andb_true_iff, !Nat.ltb_lt. intros [Hi Hj].
  destruct (lookup_lt_is_Some_2 debtors (st_i st) Hi) as [d Hd].
  destruct (lookup_lt_is_Some_2 creditors (st_j st) Hj) as [c Hc].
  eauto 10.
Qed.

(** One iteration settles the current debtor or the current creditor
    exactly, moves no pointer back and moves one of them on. *)
Lemma loop_body_progress st d c :
  inv st ->
  debtors !! st_i st = Some d ->
  creditors !! st_j st = Some c ->
  let st' := loop_body debtors creditors st in
  (bal (st_store st') d == 0 \/ bal (st_store st') c == 0) /\
  (st_i st <= st_i st' <= S (st_i st))%nat /\
  (st_j st <= st_j st' <= S (st_j st))%nat /\
  (st_i st + st_j st < st_i st' + st_j st')%nat.
Proof.
  intros Hinv Hd Hc. cbv zeta.
  pose proof (list_elem_of_lookup_2 _ _ _ Hd) as Hdin.
  pose proof (list_elem_of_lookup_2 _ _ _ Hc) as Hcin.
  pose proof (debtor_not_creditor _ _ Hdin Hcin) as Hne.
  destruct (debtors_spec _ Hdin) as [Hdl _].
  destruct (creditors_spec _ Hcin) as [Hcl _].
  rewrite <- (inv_length _ _ _ _ Hinv) in Hdl, Hcl.
  destruct (loop_body_facts debtors creditors st d c Hd Hc Hne Hdl Hcl)
    as (_ & Hbd & Hbc & _ & _ & Hi & Hj & _ & _).
  destruct (inv_debtors _ _ _ _ Hinv _ _ Hd) as [_ Hdle]. specialize (Hdle (le_n _)).
  destruct (inv_creditors _ _ _ _ Hinv _ _ Hc) as [_ Hcge]. specialize (Hcge (le_n _)).
  rewrite Hbd in Hi. rewrite Hbc in Hj. rewrite Hbd, Hbc, Hi, Hj. clear Hi Hj.
  assert (Habs : Qabs (bal (st_store st) d) == - bal (st_store st) d)
    by (apply Qabs_neg; unfold eps in *; lra).
  destruct (py_min_spec (Qabs (bal (st_store st) d)) (bal (st_store st) c))
    as [[-> Hle]|[-> Hlt]].
  - assert (Hz : bal (st_store st) d + Qabs (bal (st_store st) d) == 0) by lra.
    split; [by left|].
    destruct (decide (Qabs (bal (st_store st) d + Qabs (bal (st_store st) d)) < eps))
      as [_|Hn].
    + case_decide; lia.
    + exfalso. apply Hn. rewrite Hz. by vm_compute.
  - assert (Hz : bal (st_store st) c - bal (st_store st) c == 0) by lra.
    split; [by right|].
    destruct (decide (Qabs (bal (st_store st) c - bal (st_store st) c) < eps))
      as [_|Hn].
    + case_decide; lia.
    + exfalso. apply Hn. rewrite Hz. by vm_compute.
Qed.

Lemma inv_step st :
  inv st -> loop_cond debtors creditors st = true ->
  inv (loop_body debtors creditors st).
Proof.
  intros Hinv Hcond.
  destruct (loop_cond_current st Hcond) as (d & c & Hd & Hc & Hil & Hjl).
  pose proof (list_elem_of_lookup_2 _ _ _ Hd) as Hdin.
  pose proof (list_elem_of_lookup_2 _ _ _ Hc) as Hcin.
  pose proof (debtor_not_creditor _ _ Hdin Hcin) as Hne.
  destruct (debtors_spec _ Hdin) as [Hdl _].
  destruct (creditors_spec _ Hcin) as [Hcl _].
  rewrite <- (inv_length _ _ _ _ Hinv) in Hdl, Hcl.
  destruct (loop_body_facts debtors creditors st d c Hd Hc Hne Hdl Hcl)
    as (Hlen & Hbd & Hbc & Hoth & Hfld & Hi & Hj & Hts & Hsum).
  destruct (loop_body_progress st d c Hinv Hd Hc) as (_ & Hii & Hjj & Hprog).
  destruct (inv_debtors _ _ _ _ Hinv _ _ Hd) as [_ Hdle]. specialize (Hdle (le_n _)).
  destruct (inv_creditors _ _ _ _ Hinv _ _ Hc) as [_ Hcge]. specialize (Hcge (le_n _)).
  rewrite Hbd in Hi. rewrite Hbc in Hj.
  set (a := py_min (Qabs (bal (st_store st) d)) (bal (st_store st) c)) in *.
  assert (Ha : eps <= a /\ a <= - bal (st_store st) d /\ a <= bal (st_store st) c).
  { assert (Habs : Qabs (bal (st_store st) d) == - bal (st_store st) d)
      by (apply Qabs_neg; unfold eps in *; lra).
    unfold a.
    destruct (py_min_spec (Qabs (bal (st_store st) d)) (bal (st_store st) c))
      as [[-> Hle]|[-> Hlt]]; lra. }
  destruct Ha as (Ha1 & Ha2 & Ha3).
  split.
  - rewrite Hlen. apply (inv_length _ _ _ _ Hinv).
  - intros k. destruct (Hfld k) as (-> & -> & ->). apply (inv_fields _ _ _ _ Hinv).
  - lia.
  - lia.
  - intros p k Hk. destruct (decide (k = d)) as [->|Hkd].
    + assert (p = st_i st) as ->
        by exact (NoDup_lookup _ _ _ _ debtors_NoDup Hk Hd).
      rewrite Hbd, Hi.
      assert (Hle0 : bal (st_store st) d + a <= 0) by lra.
      pose proof (Qabs_lt_eps_iff _ Hle0) as Hiff.
      destruct (decide (Qabs (bal (st_store st) d + a) < eps)) as [Hs|Hs].
      * split; [intros _; split; [by apply Hiff|done] | lia].
      * split; [lia|]. intros _.
        destruct (Qlt_le_dec (- eps) (bal (st_store st) d + a)) as [Hlt|Hge];
          [|done]. exfalso. apply Hs. by apply Hiff.
    + assert (k <> c) as Hkc
        by (apply debtor_not_creditor; [eapply list_elem_of_lookup_2|]; eauto).
      assert (p <> st_i st) as Hp by (intros ->; congruence).
      unfold bal. rewrite (Hoth k Hkd Hkc).
      destruct (inv_debtors _ _ _ _ Hinv _ _ Hk) as [H1 H2].
      split; intros; [apply H1 | apply H2]; lia.
  - intros p k Hk. destruct (decide (k = c)) as [->|Hkc].
    + assert (p = st_j st) as ->
        by exact (NoDup_lookup _ _ _ _ creditors_NoDup Hk Hc).
      rewrite Hbc, Hj.
      assert (Hge0 : 0 <= bal (st_store st) c - a) by lra.
      pose proof (Qabs_lt_eps_iff_pos _ Hge0) as Hiff.
      destruct (decide (Qabs (bal (st_store st) c - a) < eps)) as [Hs|Hs].
      * split; [intros _; split; [done | by apply Hiff] | lia].
      * split; [lia|]. intros _.
        destruct (Qlt_le_dec (bal (st_store st) c - a) eps) as [Hlt|Hge];
          [|done]. exfalso. apply Hs. by apply Hiff.
    + assert (k <> d) as Hkd.
      { intros ->. eapply (debtor_not_creditor d d); eauto.
        eapply list_elem_of_lookup_2; eauto. }
      assert (p <> st_j st) as Hp by (intros ->; congruence).
      unfold bal. rewrite (Hoth k Hkd Hkc).
      destruct (inv_creditors _ _ _ _ Hinv _ _ Hk) as [H1 H2].
      split; intros; [apply H1 | apply H2]; lia.
  - intros k HkD HkC. rewrite Hoth by (intros ->; contradiction).
    by apply (inv_others _ _ _ _ Hinv).
  - rewrite Hts. apply Forall_app. split; [apply (inv_transfers _ _ _ _ Hinv)|].
    apply Forall_singleton. split; [done|]. exists d, c. simpl.
    destruct (inv_fields _ _ _ _ Hinv d) as (-> & _).
    destruct (inv_fields _ _ _ _ Hinv c) as (-> & _). done.
  - rewrite Hts, last_length. pose proof (inv_count _ _ _ _ Hinv). lia.
  - rewrite Hts, last_length. pose proof (inv_count _ _ _ _ Hinv). lia.
  - rewrite Hsum. apply (inv_sum _ _ _ _ Hinv).
Qed.

(** The matching loop ends within [len(debtors) + len(creditors)]
    iterations, in a state of the invariant where a pointer is at the end
    of its list; any further property kept by the iterations holds there
    too. *)
Lemma while_loop_ends (P : loop_state -> Prop) :
  P init ->
  (forall st, inv st -> P st -> loop_cond debtors creditors st = true ->
              P (loop_body debtors creditors st)) ->
  exists st, while_loop debtors creditors (length debtors + length creditors) init
             = Some st /\ (inv st /\ P st) /\
             loop_cond debtors creditors st = false.
Proof.
  intros HP0 HPstep.
  apply (while_loop_rule debtors creditors (fun st => inv st /\ P st)
           (fun st => (length debtors - st_i st) + (length creditors - st_j st))%nat).
  - intros st [Hinv HP] Hcond. split; [split; [by apply inv_step | by apply HPstep]|].
    destruct (loop_cond_current st Hcond) as (d & c & Hd & Hc & Hil & Hjl).
    destruct (loop_body_progress st d c Hinv Hd Hc) as (_ & Hii & Hjj & Hprog).
    lia.
  - split; [apply inv_init | done].
  - simpl. lia.
Qed.

Lemma inv_iterate n :
  (forall m, (m < n)%nat ->
     loop_cond debtors creditors (iterate debtors creditors m init) = true) ->
  inv (iterate debtors creditors n init).
Proof.
  induction n as [|n IH]; intros Hbefore; [apply inv_init|].
  rewrite iterate_S. apply inv_step.
  - apply IH. intros m Hm. apply Hbefore. lia.
  - apply Hbefore. lia.
Qed.

(** *** Transfers against balances, when names identify participants *)

Hypothesis names_NoDup : NoDup (name <$> store0).

Lemma names_inj k k' :
  (k < length store0)%nat -> (k' < length store0)%nat ->
  name (store0 !!! k) = name (store0 !!! k') -> k = k'.
Proof.
  intros Hk Hk' Heq.
  apply (NoDup_lookup _ _ _ (name (store0 !!! k)) names_NoDup).
  - rewrite list_lookup_fmap, (list_lookup_lookup_total_lt _ _ Hk). done.
  - rewrite list_lookup_fmap, (list_lookup_lookup_total_lt _ _ Hk'). simpl.
    by rewrite Heq.
Qed.

Lemma inv_net_init : inv_net init.
Proof. intros k _. unfold net. simpl. lra. Qed.

Lemma inv_net_step st :
  inv st -> inv_net st -> loop_cond debtors creditors st = true ->
  inv_net (loop_body debtors creditors st).
Proof.
  intros Hinv Hnet Hcond.
  destruct (loop_cond_current st Hcond) as (d & c & Hd & Hc & Hil & Hjl).
  pose proof (list_elem_of_lookup_2 _ _ _ Hd) as Hdin.
  pose proof (list_elem_of_lookup_2 _ _ _ Hc) as Hcin.
  pose proof (debtor_not_creditor _ _ Hdin Hcin) as Hne.
  destruct (debtors_spec _ Hdin) as [Hdl0 _].
  destruct (creditors_spec _ Hcin) as [Hcl0 _].
  pose proof Hdl0 as Hdl. pose proof Hcl0 as Hcl.
  rewrite <- (inv_length _ _ _ _ Hinv) in Hdl, Hcl.
  destruct (loop_body_facts debtors creditors st d c Hd Hc Hne Hdl Hcl)
    as (_ & Hbd & Hbc & Hoth & _ & _ & _ & Hts & _).
  set (a := py_min (Qabs (bal (st_store st) d)) (bal (st_store st) c)) in *.
  intros k Hk. specialize (Hnet k Hk). unfold net in *.
  rewrite Hts, received_snoc, paid_snoc. cbn [to_person from_person amount].
  destruct (inv_fields _ _ _ _ Hinv d) as (-> & _).
  destruct (inv_fields _ _ _ _ Hinv c) as (-> & _).
  destruct (decide (k = d)) as [->|Hkd]; [|destruct (decide (k = c)) as [->|Hkc]].
  - rewrite Hbd.
    rewrite decide_False by (intros Heq; apply Hne; symmetry; by apply names_inj).
    rewrite decide_True by done.
    lra.
  - rewrite Hbc. rewrite decide_True by done.
    rewrite decide_False by (intros Heq; apply Hne; by apply names_inj).
    lra.
  - unfold bal in *. rewrite (Hoth k Hkd Hkc).
    rewrite decide_False by (intros Heq; apply Hkc; symmetry; by apply names_inj).
    rewrite decide_False by (intros Heq; apply Hkd; symmetry; by apply names_inj).
    lra.
Qed.

End Matching.

(** ** The engine as a whole *)

Lemma calculate_settlements_unfold p ps total :
  calculate_settlements (p :: ps) total =
  let store := step2 (p :: ps) total in
  match while_loop (debtors_of store) (creditors_of store)
          (length (debtors_of store) + length (creditors_of store))
          (init store) with
  | Some st => Returns (st_store st, st_settlements st)
  | None => OutOfFuel
  end.
Proof.
  unfold calculate_settlements, py_truediv.
  destruct (Z.eqb_spec (Z.of_nat (length (p :: ps))) 0) as [H|H]; [simpl in H; lia|].
  reflexivity.
Qed.

(** A non-empty call returns the final state of the matching loop; the
    invariant holds there, a pointer is at the end of its list, and so does
    any property the iterations keep. *)
Lemma calculate_settlements_run participants total (P : loop_state -> Prop) :
  participants <> [] ->
  let store := step2 participants total in
  P (init store) ->
  (forall st, inv store (debtors_of store) (creditors_of store) st -> P st ->
     loop_cond (debtors_of store) (creditors_of store) st = true ->
     P (loop_body (debtors_of store) (creditors_of store) st)) ->
  exists st,
    calculate_settlements participants total
      = Returns (st_store st, st_settlements st) /\
    inv store (debtors_of store) (creditors_of store) st /\ P st /\
    loop_cond (debtors_of store) (creditors_of store) st = false.
Proof.
  intros Hne store HP0 HPstep.
  destruct participants as [|p ps]; [done|].
  rewrite calculate_settlements_unfold. fold store. cbv zeta.
  destruct (while_loop_ends store (debtors_of store) (creditors_of store)
              (debtors_of_NoDup store) (creditors_of_NoDup store)
              (fun k H => proj1 (debtors_of_spec store k) H)
              (fun k H => proj1 (creditors_of_spec store k) H)
              P HP0 HPstep) as (st & Hrun & [Hinv HP] & Hcond).
  exists st. rewrite Hrun. done.
Qed.

Lemma calculate_settlements_run_inv participants total :
  participants <> [] ->
  let store := step2 participants total in
  exists st,
    calculate_settlements participants total
      = Returns (st_store st, st_settlements st) /\
    inv store (debtors_of store) (creditors_of store) st /\
    loop_cond (debtors_of store) (creditors_of store) st = false.
Proof.
  intros Hne store.
  destruct (calculate_settlements_run participants total (fun _ => True) Hne I)
    as (st & Hrun & Hinv & _ & Hcond); [done|].
  eauto.
Qed.

(** The run of a non-empty call, iteration by iteration. *)
Lemma calculate_settlements_steps participants total :
  participants <> [] ->
  let store := step2 participants total in
  let debtors := debtors_of store in
  let creditors := creditors_of store in
  exists n,
    (n <= length debtors + length creditors)%nat /\
    calculate_settlements participants total
      = Returns (st_store (iterate debtors creditors n (init store)),
                 st_settlements (iterate debtors creditors n (init store))) /\
    loop_cond debtors creditors (iterate debtors creditors n (init store)) = false /\
    (forall m, (m < n)%nat ->
       loop_cond debtors creditors (iterate debtors creditors m (init store)) = true) /\
    (forall m, (m <= n)%nat ->
       inv store debtors creditors (iterate debtors creditors m (init store))).
Proof.
  intros Hne store debtors creditors.
  destruct (calculate_settlements_run_inv participants total Hne)
    as (st & Hrun & Hinv & Hcond).
  destruct participants as [|p ps]; [done|].
  rewrite calculate_settlements_unfold in Hrun. cbv zeta in Hrun.
  fold store debtors creditors in Hrun, Hinv, Hcond.
  destruct (while_loop debtors creditors _ (init store)) as [st1|] eqn:Hloop;
    [|done].
  destruct (while_loop_iterate _ _ _ _ _ Hloop) as (n & Hn & -> & Hend & Hbefore).
  exists n. split; [done|]. split; [|split; [done|split; [done|]]].
  - rewrite calculate_settlements_unfold. cbv zeta.
    fold store debtors creditors. by rewrite Hloop.
  - intros m Hm.
    apply (inv_iterate store debtors creditors
             (debtors_of_NoDup store) (creditors_of_NoDup store)
             (fun k H => proj1 (debtors_of_spec store k) H)
             (fun k H => proj1 (creditors_of_spec store k) H)).
    intros m' Hm'. apply Hbefore. lia.
Qed.

(** ** The claims about the engine *)

(** C6.  For an empty participant list the engine returns the pair of two
    empty lists, and on no input does it divide by a count of zero: the
    call never raises [ZeroDivisionError]. *)
Theorem empty_input_guarded :
  (forall total, calculate_settlements [] total = Returns ([], [])) /\
  (forall participants total,
     calculate_settlements participants total <> Raises ZeroDivisionError).
Proof.
  split; [done|]. intros participants total.
  destruct participants as [|p ps]; [done|].
  destruct (calculate_settlements_run_inv (p :: ps) total) as (st & -> & _);
    done.
Qed.

(** C10.  The engine terminates on every input, with a result.  On a
    non-empty input the matching loop runs [n] iterations with
    [n <= len(debtors) + len(creditors)]; each of them brings the balance of
    the current debtor or of the current creditor to exactly zero, moves no
    pointer back and moves at least one of them on. *)
Theorem calculate_settlements_terminates :
  (forall participants total,
     exists r, calculate_settlements participants total = Returns r) /\
  (forall p ps total,
     let store := step2 (p :: ps) total in
     let debtors := debtors_of store in
     let creditors := creditors_of store in
     exists n,
       (n <= length debtors + length creditors)%nat /\
       calculate_settlements (p :: ps) total
         = Returns (st_store (iterate debtors creditors n (init store)),
                    st_settlements (iterate debtors creditors n (init store))) /\
       loop_cond debtors creditors (iterate debtors creditors n (init store))
         = false /\
       forall m, (m < n)%nat ->
         let st := iterate debtors creditors m (init store) in
         let st' := iterate debtors creditors (S m) (init store) in
         loop_cond debtors creditors st = true /\
         st' = loop_body debtors creditors st /\
         (bal (st_store st') (debtors !!! st_i st) == 0 \/
          bal (st_store st') (creditors !!! st_j st) == 0) /\
         (st_i st <= st_i st')%nat /\ (st_j st <= st_j st')%nat /\
         (st_i st + st_j st < st_i st' + st_j st')%nat).
Proof.
  split.
  - intros participants total. destruct participants as [|p ps]; [by eexists|].
    destruct (calculate_settlements_run_inv (p :: ps) total) as (st & -> & _);
      [done|by eexists].
  - intros p ps total store debtors creditors.
    destruct (calculate_settlements_steps (p :: ps) total)
      as (n & Hn & Hrun & Hend & Hbefore & Hinv); [done|].
    fold store debtors creditors in Hn, Hrun, Hend, Hbefore, Hinv.
    exists n. split; [done|]. split; [done|]. split; [done|].
    intros m Hm. cbv zeta. rewrite iterate_S.
    set (st := iterate debtors creditors m (init store)).
    assert (Hcond : loop_cond debtors creditors st = true) by by apply Hbefore.
    assert (Hst : inv store debtors creditors st) by (apply Hinv; lia).
    destruct (loop_cond_current debtors creditors st Hcond)
      as (d & c & Hd & Hc & _).
    rewrite (list_lookup_total_correct _ _ _ Hd).
    rewrite (list_lookup_total_correct _ _ _ Hc).
    destruct (loop_body_progress store debtors creditors
                (fun k H => proj1 (debtors_of_spec store k) H)
                (fun k H => proj1 (creditors_of_spec store k) H)
                st d c Hst Hd Hc) as (Hzero & Hi & Hj & Hprog).
    repeat split; try done; lia.
Qed.

(** ** Sums of balances *)

Lemma sum_bal_annotate sh participants :
  sum_bal (annotate sh participants)
  == sum_contribution participants
     - inject_Z (Z.of_nat (length participants)) * sh.
Proof.
  induction participants as [|p ps IH].
  - change (0 == 0 - 0 * sh). lra.
  - change (sum_bal (annotate sh (p :: ps)))
      with (contribution p - sh + sum_bal (annotate sh ps)).
    change (sum_contribution (p :: ps))
      with (contribution p + sum_contribution ps).
    rewrite IH. change (length (p :: ps)) with (S (length ps)).
    rewrite Nat2Z.inj_succ, <- Z.add_1_r, inject_Z_plus.
    change (inject_Z 1) with 1. lra.
Qed.

Lemma sum_bal_step2 participants total :
  sum_contribution participants == total ->
  sum_bal (step2 participants total) == 0.
Proof.
  intros Hsum. unfold step2. rewrite sum_bal_annotate. unfold share.
  destruct participants as [|p ps].
  - change (0 - 0 * (total / 0) == 0). generalize (total / 0). intros q. lra.
  - rewrite Hsum.
    assert (Hn : ~ inject_Z (Z.of_nat (length (p :: ps))) == 0).
    { change 0 with (inject_Z 0). rewrite inject_Z_injective. simpl. lia. }
    field. exact Hn.
Qed.

Lemma returned_sum_bal participants total ps' ts :
  sum_contribution participants == total ->
  calculate_settlements participants total = Returns (ps', ts) ->
  sum_bal ps' == 0.
Proof.
  intros Hsum Hrun. destruct participants as [|p ps].
  - injection Hrun as <- <-. done.
  - destruct (calculate_settlements_run_inv (p :: ps) total)
      as (st & Hst & Hinv & _); [done|].
    rewrite Hst in Hrun. injection Hrun as <- <-.
    rewrite (inv_sum _ _ _ _ Hinv). by apply sum_bal_step2.
Qed.

(** C3.  When the contributions sum to [total_amount], the balances that
    step 2 sets, [contribution - total_amount / count], sum to exactly 0;
    and so do the balances of the participants the engine returns. *)
Theorem balances_sum_to_zero participants total :
  sum_contribution participants == total ->
  sum_bal (step2 participants total) == 0 /\
  forall ps' ts,
    calculate_settlements participants total = Returns (ps', ts) ->
    sum_bal ps' == 0.
Proof.
  intros Hsum. split; [by apply sum_bal_step2|].
  intros ps' ts Hrun. by eapply returned_sum_bal.
Qed.

(** ** Determinism and idempotence *)

Lemma annotate_same_input sh ps qs :
  Forall2 same_input ps qs -> annotate sh ps = annotate sh qs.
Proof.
  induction 1 as [|p q ps qs (Hn & Hc & Hp) _ IH]; [done|].
  unfold annotate in *. rewrite !fmap_cons, IH. f_equal.
  unfold set_settlement_amount. by rewrite Hn, Hc, Hp.
Qed.

Lemma calculate_settlements_same_input ps qs total :
  Forall2 same_input ps qs ->
  calculate_settlements ps total = calculate_settlements qs total.
Proof.
  intros Hsame. pose proof (Forall2_length _ _ _ Hsame) as Hlen.
  destruct Hsame as [|p q ps qs Hpq Hrest]; [done|].
  rewrite !calculate_settlements_unfold. unfold step2, share.
  rewrite Hlen.
  by rewrite (annotate_same_input _ (p :: ps) (q :: qs))
    by by constructor.
Qed.

(** The engine changes no name, contribution or phone number. *)
Lemma calculate_settlements_keeps_input ps total ps' ts :
  calculate_settlements ps total = Returns (ps', ts) ->
  Forall2 same_input ps ps'.
Proof.
  intros Hrun. destruct ps as [|p ps].
  { injection Hrun as <- <-. constructor. }
  destruct (calculate_settlements_run_inv (p :: ps) total)
    as (st & Hst & Hinv & _); [done|].
  rewrite Hst in Hrun. injection Hrun as <- <-.
  pose proof (inv_length _ _ _ _ Hinv) as Hlen.
  unfold step2, annotate in Hlen. rewrite length_fmap in Hlen.
  apply Forall2_same_length_lookup_2; [done|].
  intros k x y Hx Hy.
  destruct (inv_fields _ _ _ _ Hinv k) as (Hn & Hc & Hp).
  rewrite (list_lookup_total_correct _ _ _ Hy) in Hn, Hc, Hp.
  assert (Hs : step2 (p :: ps) total !! k
               = Some (set_settlement_amount x
                         (contribution x - share (p :: ps) total))).
  { unfold step2, annotate. by rewrite list_lookup_fmap, Hx. }
  rewrite (list_lookup_total_correct _ _ _ Hs) in Hn, Hc, Hp.
  simpl in Hn, Hc, Hp. by repeat split.
Qed.

(** C4.  The engine is deterministic and idempotent.  Two participant lists
    with the same names, contributions and phone numbers, whatever their
    [settlement_amount], get the same result for the same total; so a second
    call on the participants that a first call returned yields the same
    transfers in the same order (and the same participants). *)
Theorem calculate_settlements_idempotent :
  (forall ps qs total,
     Forall2 same_input ps qs ->
     calculate_settlements ps total = calculate_settlements qs total) /\
  (forall ps total ps' ts,
     calculate_settlements ps total = Returns (ps', ts) ->
     calculate_settlements ps' total = Returns (ps', ts)).
Proof.
  split; [apply calculate_settlements_same_input|].
  intros ps total ps' ts Hrun. rewrite <- Hrun. symmetry.
  apply calculate_settlements_same_input.
  by eapply calculate_settlements_keeps_input.
Qed.

(** ** The tolerance *)

Lemma step2_lookup participants total k p :
  participants !! k = Some p ->
  step2 participants total !! k
  = Some (set_settlement_amount p (contribution p - share participants total)).
Proof.
  intros Hk. unfold step2, annotate. by rewrite list_lookup_fmap, Hk.
Qed.

Lemma step2_length participants total :
  length (step2 participants total) = length participants.
Proof. unfold step2, annotate. apply length_fmap. Qed.

Lemma step2_name participants total k :
  name (step2 participants total !!! k) = name (participants !!! k).
Proof.
  destruct (participants !! k) as [p|] eqn:Hk.
  - rewrite (list_lookup_total_correct _ _ _ (step2_lookup _ total _ _ Hk)).
    by rewrite (list_lookup_total_correct _ _ _ Hk).
  - rewrite !list_lookup_total_alt, Hk.
    assert (step2 participants total !! k = None) as ->; [|done].
    apply lookup_ge_None. rewrite step2_length. by apply lookup_ge_None.
Qed.

(** C5.  The comparison with the tolerance is strict.  A participant whose
    step-2 balance lies in the closed interval from -0.01 to 0.01, the two
    ends included, is neither in the debtor list nor in the creditor list;
    every transfer goes from a debtor to a creditor, both other than this
    participant, and when the names are pairwise distinct the name of the
    participant is the [from_person] or [to_person] of no transfer. *)
Theorem settled_participant_in_no_transfer participants total k p :
  participants !! k = Some p ->
  - eps <= contribution p - share participants total ->
  contribution p - share participants total <= eps ->
  let store := step2 participants total in
  (k ∉ debtors_of store) /\ (k ∉ creditors_of store) /\
  forall ps' ts,
    calculate_settlements participants total = Returns (ps', ts) ->
    Forall (fun t => exists d c,
              d ∈ debtors_of store /\ c ∈ creditors_of store /\
              d <> k /\ c <> k /\
              from_person t = name (participants !!! d) /\
              to_person t = name (participants !!! c)) ts /\
    (NoDup (name <$> participants) ->
     Forall (fun t => from_person t <> name p /\ to_person t <> name p) ts).
Proof.
  intros Hk Hlo Hhi store.
  assert (Hbal : bal store k = contribution p - share participants total).
  { unfold bal, store.
    by rewrite (list_lookup_total_correct _ _ _ (step2_lookup _ total _ _ Hk)). }
  assert (HkD : k ∉ debtors_of store).
  { rewrite debtors_of_spec, Hbal. intros [_ H]. lra. }
  assert (HkC : k ∉ creditors_of store).
  { rewrite creditors_of_spec, Hbal. intros [_ H]. lra. }
  split; [done|]. split; [done|].
  intros ps' ts Hrun.
  assert (Hts : Forall (good_transfer store (debtors_of store) (creditors_of store))
                  ts).
  { destruct participants as [|q qs]; [done|].
    destruct (calculate_settlements_run_inv (q :: qs) total)
      as (st & Hst & Hinv & _); [done|].
    rewrite Hst in Hrun. injection Hrun as <- <-.
    apply (inv_transfers _ _ _ _ Hinv). }
  assert (Hgood : Forall (fun t => exists d c,
              d ∈ debtors_of store /\ c ∈ creditors_of store /\
              d <> k /\ c <> k /\
              from_person t = name (participants !!! d) /\
              to_person t = name (participants !!! c)) ts).
  { eapply Forall_impl; [exact Hts|].
    intros t (_ & d & c & Hd & Hc & Hfrom & Hto).
    exists d, c. unfold store in Hfrom, Hto. rewrite step2_name in Hfrom, Hto.
    repeat split; try done; intros ->; contradiction. }
  split; [done|].
  intros Hnames. eapply Forall_impl; [exact Hgood|].
  intros t (d & c & Hd & Hc & Hdk & Hck & Hfrom & Hto).
  apply debtors_of_spec in Hd as [Hd _]. apply creditors_of_spec in Hc as [Hc _].
  unfold store in Hd, Hc. rewrite step2_length in Hd, Hc.
  assert (Hnk : (name <$> participants) !! k = Some (name p))
    by by rewrite list_lookup_fmap, Hk.
  split; intros Heq.
  - apply Hdk. apply (NoDup_lookup _ _ _ (name p) Hnames); [|done].
    rewrite list_lookup_fmap, (list_lookup_lookup_total_lt _ _ Hd). simpl.
    by rewrite <- Hfrom, Heq.
  - apply Hck. apply (NoDup_lookup _ _ _ (name p) Hnames); [|done].
    rewrite list_lookup_fmap, (list_lookup_lookup_total_lt _ _ Hc). simpl.
    by rewrite <- Hto, Heq.
Qed.

(** ** Amounts of the transfers and their rounding *)

Lemma round_half_even_near x :
  Qabs (inject_Z (round_half_even x) - x) <= 1 # 2.
Proof.
  unfold round_half_even.
  pose proof (Qfloor_le x) as Hlo. pose proof (Qlt_floor x) as Hhi.
  rewrite inject_Z_plus in Hhi. change (inject_Z 1) with 1 in Hhi.
  apply Qabs_Qle_condition.
  destruct (decide (x - inject_Z (Qfloor x) < 1 # 2)) as [H1|H1].
  { split; lra. }
  destruct (decide ((1 # 2) < x - inject_Z (Qfloor x))) as [H2|H2].
  { rewrite inject_Z_plus. change (inject_Z 1) with 1. split; lra. }
  apply Qnot_lt_le in H1, H2.
  destruct (Z.even (Qfloor x)).
  - split; lra.
  - rewrite inject_Z_plus. change (inject_Z 1) with 1. split; lra.
Qed.

Lemma round_half_even_ge_1 x : 1 <= x -> (1 <= round_half_even x)%Z.
Proof.
  intros Hx. unfold round_half_even.
  assert (Hf : (1 <= Qfloor x)%Z).
  { change 1%Z with (Qfloor 1). by apply Qfloor_resp_le. }
  destruct (decide _); [done|]. destruct (decide _); [lia|].
  destruct (Z.even _); lia.
Qed.

Lemma py_round_2 x :
  py_round x 2 == inject_Z (round_half_even (x * 100)) / 100.
Proof. reflexivity. Qed.

Lemma py_round_2_near x : Qabs (py_round x 2 - x) <= 1 # 200.
Proof.
  rewrite py_round_2.
  pose proof (round_half_even_near (x * 100)) as H.
  apply Qabs_Qle_condition in H. apply Qabs_Qle_condition.
  set (z := inject_Z (round_half_even (x * 100))) in *.
  assert (Hz : z / 100 == z * (1 # 100)) by (field).
  rewrite Hz. split; lra.
Qed.

(** C7.  Every transfer the engine emits has an amount of at least the
    tolerance 0.01, hence strictly positive; [to_dict] serializes it as
    [round(amount, 2)], a whole number of hundredths, at least one, within
    half a hundredth of the amount.  Whenever the loop goes on, the balances
    under both pointers are at least 0.01 in absolute value. *)
Theorem transfers_positive_and_rounded participants total ps' ts :
  calculate_settlements participants total = Returns (ps', ts) ->
  Forall (fun t =>
            eps <= amount t /\ 0 < amount t /\
            dict_get "amount" (Settlement_to_dict t)
              = Some (JFloat (py_round (amount t) 2)) /\
            (exists z : Z, (1 <= z)%Z /\ py_round (amount t) 2 == inject_Z z / 100) /\
            Qabs (py_round (amount t) 2 - amount t) <= 1 # 200) ts /\
  (let store := step2 participants total in
   let debtors := debtors_of store in
   let creditors := creditors_of store in
   forall m,
     let st := iterate debtors creditors m (init store) in
     (forall m', (m' <= m)%nat ->
        loop_cond debtors creditors (iterate debtors creditors m' (init store))
          = true) ->
     eps <= Qabs (bal (st_store st) (debtors !!! st_i st)) /\
     eps <= Qabs (bal (st_store st) (creditors !!! st_j st))).
Proof.
  intros Hrun. split.
  - assert (Hts : Forall (good_transfer (step2 participants total)
                            (debtors_of (step2 participants total))
                            (creditors_of (step2 participants total))) ts).
    { destruct participants as [|q qs]; [by injection Hrun as <- <-|].
      destruct (calculate_settlements_run_inv (q :: qs) total)
        as (st & Hst & Hinv & _); [done|].
      rewrite Hst in Hrun. injection Hrun as <- <-.
      apply (inv_transfers _ _ _ _ Hinv). }
    eapply Forall_impl; [exact Hts|].
    intros t (Hge & _). unfold eps in Hge.
    split; [done|]. split; [lra|]. split; [done|]. split.
    + exists (round_half_even (amount t * 100)). split.
      * apply round_half_even_ge_1. lra.
      * apply py_round_2.
    + apply py_round_2_near.
  - intros store debtors creditors m st Hcond.
    assert (Hinv : inv store debtors creditors st).
    { apply (inv_iterate store debtors creditors
               (debtors_of_NoDup store) (creditors_of_NoDup store)
               (fun k H => proj1 (debtors_of_spec store k) H)
               (fun k H => proj1 (creditors_of_spec store k) H)).
      intros m' Hm'. apply Hcond. lia. }
    destruct (loop_cond_current debtors creditors st (Hcond m (le_n _)))
      as (d & c & Hd & Hc & _).
    rewrite (list_lookup_total_correct _ _ _ Hd).
    rewrite (list_lookup_total_correct _ _ _ Hc).
    destruct (inv_debtors _ _ _ _ Hinv _ _ Hd) as [_ Hdle].
    destruct (inv_creditors _ _ _ _ Hinv _ _ Hc) as [_ Hcge].
    specialize (Hdle (le_n _)). specialize (Hcge (le_n _)).
    unfold eps in *. split.
    + rewrite Qabs_neg by lra. lra.
    + rewrite Qabs_pos by lra. lra.
Qed.

(** ** Balances that sum to zero and are bounded on one side *)

Lemma inject_nat_S n :
  inject_Z (Z.of_nat (S n)) == inject_Z (Z.of_nat n) + 1.
Proof.
  rewrite Nat2Z.inj_succ, <- Z.add_1_r, inject_Z_plus. reflexivity.
Qed.

Lemma inject_nat_nonneg n : 0 <= inject_Z (Z.of_nat n).
Proof.
  change 0 with (inject_Z 0). rewrite <- Zle_Qle. lia.
Qed.

Lemma sum_bal_cons p store :
  sum_bal (p :: store) = settlement_amount p + sum_bal store.
Proof. reflexivity. Qed.

Lemma sum_bal_ge store :
  Forall (fun p => - eps <= settlement_amount p) store ->
  - (inject_Z (Z.of_nat (length store)) * eps) <= sum_bal store.
Proof.
  unfold eps. induction 1 as [|p store Hp _ IH].
  - change (- (0 * (1 # 100)) <= 0). lra.
  - rewrite sum_bal_cons. change (length (p :: store)) with (S (length store)).
    rewrite inject_nat_S. lra.
Qed.

Lemma sum_bal_le store :
  Forall (fun p => settlement_amount p <= eps) store ->
  sum_bal store <= inject_Z (Z.of_nat (length store)) * eps.
Proof.
  unfold eps. induction 1 as [|p store Hp _ IH].
  - change (0 <= 0 * (1 # 100)). lra.
  - rewrite sum_bal_cons. change (length (p :: store)) with (S (length store)).
    rewrite inject_nat_S. lra.
Qed.

Lemma bal_le_of_sum store k p :
  Forall (fun p => - eps <= settlement_amount p) store ->
  store !! k = Some p ->
  settlement_amount p
  <= sum_bal store + (inject_Z (Z.of_nat (length store)) - 1) * eps.
Proof.
  intros Hall. revert k. induction Hall as [|q store Hq Hall IH]; intros k Hk.
  - done.
  - rewrite sum_bal_cons. change (length (q :: store)) with (S (length store)).
    rewrite inject_nat_S. destruct k as [|k]; simpl in Hk.
    + injection Hk as ->. pose proof (sum_bal_ge store Hall).
      unfold eps in *. lra.
    + specialize (IH k Hk). unfold eps in *. lra.
Qed.

Lemma bal_ge_of_sum store k p :
  Forall (fun p => settlement_amount p <= eps) store ->
  store !! k = Some p ->
  sum_bal store - (inject_Z (Z.of_nat (length store)) - 1) * eps
  <= settlement_amount p.
Proof.
  intros Hall. revert k. induction Hall as [|q store Hq Hall IH]; intros k Hk.
  - done.
  - rewrite sum_bal_cons. change (length (q :: store)) with (S (length store)).
    rewrite inject_nat_S. destruct k as [|k]; simpl in Hk.
    + injection Hk as ->. pose proof (sum_bal_le store Hall).
      unfold eps in *. lra.
    + specialize (IH k Hk). unfold eps in *. lra.
Qed.

(** Balances that sum to zero and are all at least [-eps], or all at most
    [eps], lie within [(n - 1) * eps] of zero. *)
Lemma one_sided_balances_bounded store k p :
  sum_bal store == 0 ->
  store !! k = Some p ->
  Forall (fun p => - eps <= settlement_amount p) store \/
  Forall (fun p => settlement_amount p <= eps) store ->
  Qabs (settlement_amount p)
  <= (inject_Z (Z.of_nat (length store)) - 1) * eps.
Proof.
  intros Hsum Hk Hside. apply Qabs_Qle_condition.
  destruct store as [|q [|q' store]]; [done| |].
  - destruct k as [|k]; [|done]. injection Hk as ->.
    rewrite sum_bal_cons in Hsum. change (sum_bal []) with 0 in Hsum.
    change ((inject_Z (Z.of_nat (length [p])) - 1) * eps) with ((1 - 1) * eps).
    unfold eps. split; lra.
  - set (l := q :: q' :: store) in *.
    assert (Hn : 2 <= inject_Z (Z.of_nat (length l))).
    { unfold l. change (length (q :: q' :: store)) with (S (S (length store))).
      rewrite !inject_nat_S. pose proof (inject_nat_nonneg (length store)). lra. }
    destruct Hside as [Hall|Hall].
    + pose proof (bal_le_of_sum l k p Hall Hk) as Hup.
      pose proof (proj1 (Forall_lookup _ _) Hall k p Hk) as Hlow. simpl in Hlow.
      unfold eps in *. split; lra.
    + pose proof (bal_ge_of_sum l k p Hall Hk) as Hlow.
      pose proof (proj1 (Forall_lookup _ _) Hall k p Hk) as Hup. simpl in Hup.
      unfold eps in *. split; lra.
Qed.

(** When the matching loop stops, either every debtor is behind its pointer
    and no balance is below [-eps], or every creditor is and no balance is
    above [eps]. *)
Lemma final_balances_one_sided store st :
  inv store (debtors_of store) (creditors_of store) st ->
  loop_cond (debtors_of store) (creditors_of store) st = false ->
  Forall (fun p => - eps <= settlement_amount p) (st_store st) \/
  Forall (fun p => settlement_amount p <= eps) (st_store st).
Proof.
  intros Hinv Hcond. unfold loop_cond in Hcond.
  apply andb_false_iff in Hcond. rewrite !Nat.ltb_ge in Hcond.
  assert (Hcase : forall k q, st_store st !! k = Some q ->
            settlement_amount q = bal (st_store st) k /\
            (k < length store)%nat).
  { intros k q Hq. split.
    - unfold bal. by rewrite (list_lookup_total_correct _ _ _ Hq).
    - rewrite <- (inv_length _ _ _ _ Hinv). by eapply lookup_lt_Some. }
  destruct Hcond as [Hi|Hj]; [left|right];
    apply Forall_lookup; intros k q Hq;
    destruct (Hcase k q Hq) as [-> Hk].
  - destruct (decide (k ∈ debtors_of store)) as [HD|HD].
    + apply list_elem_of_lookup_1 in HD as [pos Hpos].
      destruct (inv_debtors _ _ _ _ Hinv _ _ Hpos) as [Hbehind _].
      pose proof (lookup_lt_Some _ _ _ Hpos). destruct Hbehind; [lia|lra].
    + destruct (decide (k ∈ creditors_of store)) as [HC|HC].
      * apply list_elem_of_lookup_1 in HC as [pos Hpos].
        destruct (inv_creditors _ _ _ _ Hinv _ _ Hpos) as [Hbehind Hahead].
        destruct (Nat.lt_ge_cases pos (st_j st)) as [Hlt|Hge].
        -- destruct (Hbehind Hlt). unfold eps. lra.
        -- specialize (Hahead Hge). unfold eps in *. lra.
      * unfold bal. rewrite (inv_others _ _ _ _ Hinv k HD HC).
        rewrite debtors_of_spec in HD.
        destruct (Qlt_le_dec (bal store k) (- eps)) as [Hlt|Hge]; [|done].
        exfalso. by apply HD.
  - destruct (decide (k ∈ creditors_of store)) as [HC|HC].
    + apply list_elem_of_lookup_1 in HC as [pos Hpos].
      destruct (inv_creditors _ _ _ _ Hinv _ _ Hpos) as [Hbehind _].
      pose proof (lookup_lt_Some _ _ _ Hpos). destruct Hbehind; [lia|lra].
    + destruct (decide (k ∈ debtors_of store)) as [HD|HD].
      * apply list_elem_of_lookup_1 in HD as [pos Hpos].
        destruct (inv_debtors _ _ _ _ Hinv _ _ Hpos) as [Hbehind Hahead].
        destruct (Nat.lt_ge_cases pos (st_i st)) as [Hlt|Hge].
        -- destruct (Hbehind Hlt). unfold eps. lra.
        -- specialize (Hahead Hge). unfold eps in *. lra.
      * unfold bal. rewrite (inv_others _ _ _ _ Hinv k HD HC).
        rewrite creditors_of_spec in HC.
        destruct (Qlt_le_dec eps (bal store k)) as [Hlt|Hge]; [|done].
        exfalso. by apply HC.
Qed.

Lemma step2_names participants total :
  name <$> step2 participants total = name <$> participants.
Proof.
  unfold step2, annotate. rewrite <- list_fmap_compose. done.
Qed.

(** What the transfers bring to a participant and the balance it is
    returned with make up its step-2 balance, when names are distinct. *)
Lemma net_plus_residual participants total ps' ts k p :
  NoDup (name <$> participants) ->
  calculate_settlements participants total = Returns (ps', ts) ->
  participants !! k = Some p ->
  exists p', ps' !! k = Some p' /\
    settlement_amount p' + net ts (name p)
    == contribution p - share participants total.
Proof.
  intros Hnames Hrun Hk.
  assert (Hne : participants <> []) by (intros ->; done).
  set (store := step2 participants total).
  assert (Hnames' : NoDup (name <$> store))
    by (unfold store; by rewrite step2_names).
  destruct (calculate_settlements_run participants total (inv_net store) Hne)
    as (st & Hst & Hinv & Hnet & Hcond).
  { apply inv_net_init. }
  { intros st Hinv Hnet Hcond.
    apply (inv_net_step store (debtors_of store) (creditors_of store)
             (fun k H => proj1 (debtors_of_spec store k) H)
             (fun k H => proj1 (creditors_of_spec store k) H)
             Hnames' st Hinv Hnet Hcond). }
  rewrite Hst in Hrun. injection Hrun as <- <-.
  fold store in Hinv.
  assert (Hlt : (k < length store)%nat).
  { unfold store. rewrite step2_length. by eapply lookup_lt_Some. }
  assert (Hlt' : (k < length (st_store st))%nat)
    by by rewrite (inv_length _ _ _ _ Hinv).
  exists (st_store st !!! k). split; [by apply list_lookup_lookup_total_lt|].
  specialize (Hnet k Hlt). unfold store in Hnet.
  rewrite step2_name, (list_lookup_total_correct _ _ _ Hk) in Hnet.
  unfold bal in Hnet at 2.
  rewrite (list_lookup_total_correct _ _ _ (step2_lookup _ total _ _ Hk)) in Hnet.
  exact Hnet.
Qed.

(** ** Transfers against balances *)

(** C1, as stated, fails, in three ways.
    In [small_debts] the names are distinct and the contributions sum to the
    total 4; the balances are -1/128 three times and 3/128.  No balance is
    below -0.01, so there is no debtor and no transfer, and D, a creditor,
    receives nothing: its net transfers, 0, differ by 3/128 > 0.01 from its
    balance.
    In [same_name] both participants called A owe 20 and pay it to C: the
    transfers from the name A amount to 40.
    In [unpaid] the contributions do not sum to the total: both participants
    owe 45 and there is nobody to pay. *)
Lemma net_transfers_miss_balance :
  (NoDup (name <$> Examples.small_debts) /\
   sum_contribution Examples.small_debts == 4 /\
   ~ nets_match_balance Examples.small_debts 4 3) /\
  (sum_contribution Examples.same_name == 60 /\
   ~ nets_match_balance Examples.same_name 60 0) /\
  (NoDup (name <$> Examples.unpaid) /\
   ~ nets_match_balance Examples.unpaid 90 0).
Proof.
  assert (Hno : forall participants total k ps ts p,
            calculate_settlements participants total = Returns (ps, ts) ->
            ps !! k = Some p ->
            ~ Qabs (net ts (name p) - settlement_amount p) <= eps ->
            ~ Qabs (net ts (name p)
                    - (contribution p - share participants total)) <= eps ->
            ~ nets_match_balance participants total k).
  { intros participants total k ps ts p Hrun Hp H1 H2 (ps' & ts' & p' & Hrun' & Hp' & H).
    rewrite Hrun in Hrun'. injection Hrun' as <- <-.
    rewrite Hp in Hp'. injection Hp' as <-. by destruct H. }
  assert (Hle : forall x, ~ x <= eps <-> (eps < x)) by (intros x; split; lra).
  split; [split; [|split] | split; [split | split]].
  - apply (bool_decide_unpack _). by vm_compute.
  - by vm_compute.
  - eapply Hno; [by vm_compute | reflexivity | |]; apply Hle; by vm_compute.
  - by vm_compute.
  - eapply Hno; [by vm_compute | reflexivity | |]; apply Hle; by vm_compute.
  - apply (bool_decide_unpack _). by vm_compute.
  - eapply Hno; [by vm_compute | reflexivity | |]; apply Hle; by vm_compute.
Qed.

(** C1, amended.  For participants with pairwise distinct names whose
    contributions sum to [total_amount], what the transfers bring to a
    participant, received less paid, differs from its step-2 balance
    [contribution - share] by at most [(n - 1) * 0.01], [n] being the number
    of participants. *)
Theorem net_transfers_near_balance participants total ps' ts k p :
  NoDup (name <$> participants) ->
  sum_contribution participants == total ->
  calculate_settlements participants total = Returns (ps', ts) ->
  participants !! k = Some p ->
  Qabs (net ts (name p) - (contribution p - share participants total))
  <= (inject_Z (Z.of_nat (length participants)) - 1) * eps.
Proof.
  intros Hnames Hsum Hrun Hk.
  destruct (net_plus_residual _ _ _ _ _ _ Hnames Hrun Hk) as (p' & Hp' & Hnet).
  assert (Hne : participants <> []) by (intros ->; done).
  destruct (calculate_settlements_run_inv participants total Hne)
    as (st & Hst & Hinv & Hcond).
  pose proof (returned_sum_bal _ _ _ _ Hsum Hrun) as Hzero.
  rewrite Hst in Hrun. injection Hrun as <- <-.
  pose proof (final_balances_one_sided _ _ Hinv Hcond) as Hside.
  pose proof (one_sided_balances_bounded _ _ _ Hzero Hp' Hside) as Hbound.
  rewrite (inv_length _ _ _ _ Hinv), step2_length in Hbound.
  assert (Heq : net (st_settlements st) (name p)
                - (contribution p - share participants total)
                == - settlement_amount p') by lra.
  rewrite Heq, Qabs_opp. exact Hbound.
Qed.

(** ** The number of transfers *)

(** C2, as stated, fails.  In an equal split nobody is a debtor or a
    creditor and no transfer is emitted, while
    [count(debtors) + count(creditors) - 1] is -1. *)
Lemma transfer_count_exceeds_stated_bound :
  exists ps' ts,
    calculate_settlements Examples.equal_split 90 = Returns (ps', ts) /\
    ~ (Z.of_nat (length ts)
       <= Z.of_nat (length (debtors_of (step2 Examples.equal_split 90)))
          + Z.of_nat (length (creditors_of (step2 Examples.equal_split 90)))
          - 1)%Z.
Proof.
  eexists _, _. split; [by vm_compute|].
  intros H. vm_compute in H. by apply H.
Qed.

(** C2, amended.  The number of transfers is at most
    [count(debtors) + count(creditors) - 1] when that is not negative, and
    zero otherwise, the debtors and creditors being those of step 2.  Each
    iteration of the loop settles the current debtor or the current creditor
    exactly and moves at least one of the two pointers on. *)
Theorem transfer_count_bound participants total ps' ts :
  calculate_settlements participants total = Returns (ps', ts) ->
  let store := step2 participants total in
  let debtors := debtors_of store in
  let creditors := creditors_of store in
  (Z.of_nat (length ts)
   <= Z.max 0 (Z.of_nat (length debtors) + Z.of_nat (length creditors) - 1))%Z /\
  forall m,
    let st := iterate debtors creditors m (init store) in
    let st' := loop_body debtors creditors st in
    (forall m', (m' <= m)%nat ->
       loop_cond debtors creditors (iterate debtors creditors m' (init store))
         = true) ->
    (bal (st_store st') (debtors !!! st_i st) == 0 \/
     bal (st_store st') (creditors !!! st_j st) == 0) /\
    (st_i st <= st_i st')%nat /\ (st_j st <= st_j st')%nat /\
    (st_i st + st_j st < st_i st' + st_j st')%nat.
Proof.
  intros Hrun store debtors creditors. split.
  - destruct participants as [|q qs]; [by injection Hrun as <- <-|].
    destruct (calculate_settlements_run_inv (q :: qs) total)
      as (st & Hst & Hinv & _); [done|].
    rewrite Hst in Hrun. injection Hrun as <- <-.
    pose proof (inv_bound _ _ _ _ Hinv) as Hb.
    fold store debtors creditors in Hb. lia.
  - intros m st st' Hcond. subst st'.
    assert (Hinv : inv store debtors creditors st).
    { apply (inv_iterate store debtors creditors
               (debtors_of_NoDup store) (creditors_of_NoDup store)
               (fun k H => proj1 (debtors_of_spec store k) H)
               (fun k H => proj1 (creditors_of_spec store k) H)).
      intros m' Hm'. apply Hcond. lia. }
    destruct (loop_cond_current debtors creditors st (Hcond m (le_n _)))
      as (d & c & Hd & Hc & _).
    rewrite (list_lookup_total_correct _ _ _ Hd).
    rewrite (list_lookup_total_correct _ _ _ Hc).
    destruct (loop_body_progress store debtors creditors
                (fun k H => proj1 (debtors_of_spec store k) H)
                (fun k H => proj1 (creditors_of_spec store k) H)
                st d c Hinv Hd Hc) as (Hzero & Hi & Hj & Hprog).
    repeat split; try done; lia.
Qed.

(** ** The example of the specification *)

(** C8.  For the total 90 and A, B, C with the contributions 0, 30 and 60,
    step 2 sets the balances -30, 0 and 30, and the engine returns exactly
    one transfer, from A to C, of 30. *)
Theorem example_abc :
  Forall2 Qeq (settlement_amount <$> step2 Examples.abc 90) [-30; 0; 30] /\
  exists ps' t,
    calculate_settlements Examples.abc 90 = Returns (ps', [t]) /\
    from_person t = "A"%string /\ to_person t = "C"%string /\
    amount t == 30.
Proof.
  split.
  - repeat constructor; by vm_compute.
  - eexists _, _. split; [by vm_compute|]. by vm_compute.
Qed.

(** The participants returned for this example: the matching loop has
    brought the balances of A and C back to zero. *)
Lemma example_abc_returned_balances :
  exists ps' ts,
    calculate_settlements Examples.abc 90 = Returns (ps', ts) /\
    Forall2 Qeq (settlement_amount <$> ps') [0; 0; 0].
Proof.
  eexists _, _. split; [by vm_compute|]. repeat constructor; by vm_compute.
Qed.

(** ** The validator and the create-expense flow *)

Section ValidatorFacts.

Variable float_of_string : string -> option Q.
Variable int_of_string : string -> option Z.

Lemma check_participant_sum p acc tc :
  check_participant float_of_string p acc = Returns (inr tc) ->
  tc = acc + contribution_of float_of_string p.
Proof.
  unfold check_participant, contribution_of.
  destruct p as [| | | |s|l|d]; simpl; try done.
  - destruct (is_substring "name" s); simpl; done.
  - destruct (existsb is_name l); simpl; done.
  - destruct (dict_get "name" d) as [v|] eqn:Hname; simpl; [|done].
    destruct v as [| | | |s| |]; simpl; try done.
    destruct (strip s); [done|].
    destruct (py_float float_of_string (dict_get_default "contribution" (JInt 0) d))
      as [q|e|]; simpl.
    + case_decide; simpl; [done|].
      destruct (dict_get_default "phone_number" (JStr "") d); simpl; try done.
      destruct (_ && _); simpl; [done|]. by intros [= <-].
    + by destruct e.
    + done.
Qed.

Lemma check_participants_sum items acc tc :
  check_participants float_of_string items acc = Returns (inr tc) ->
  tc = fold_left (fun acc p => acc + contribution_of float_of_string p) items acc.
Proof.
  revert acc. induction items as [|p items IH]; intros acc; simpl.
  - by intros [= <-].
  - destruct (check_participant float_of_string p acc) as [[msg|acc']|e|] eqn:Hp;
      simpl; try done.
    intros Hrest. apply check_participant_sum in Hp as ->. by apply IH.
Qed.

Lemma sum_mismatch_message_nonempty tc total :
  sum_mismatch_message tc total <> EmptyString.
Proof. done. Qed.

(** A request the validator rejects gets the response 400 with the
    validator's message, and the flow calls nothing. *)
Lemma create_expense_rejected data msg :
  validate_expense_data float_of_string int_of_string data
    = Returns (false, msg) ->
  create_expense float_of_string int_of_string data = ([], BadRequest msg).
Proof. intros H. unfold create_expense. by rewrite H. Qed.

(** C9.  Take a request with explicit participants (a non-empty
    [participants]) that passes every check before line 203: the fields,
    the total, the head count, the number of participants and the loop
    over the participants, which leaves in [total_contributions] the sum
    of their contributions.  If that sum differs from [total_amount] by
    more than 0.01, [validate_expense_data] returns [False] with a
    non-empty message, and [create_expense] answers 400 with that message
    without calling the engine; if it does not, [validate_expense_data]
    returns [(True, "")]. *)
Theorem sum_check_decides data v items total_amount num_people
    total_contributions :
  dict_get "participants" data = Some v ->
  truthy v = true ->
  check_fields float_of_string int_of_string data
    = Returns (inr (total_amount, num_people)) ->
  py_iter v = Returns items ->
  Z.of_nat (length items) = num_people ->
  check_participants float_of_string items 0
    = Returns (inr total_contributions) ->
  total_contributions = contributions_sum float_of_string items /\
  ((1 # 100) < Qabs (total_contributions - total_amount) ->
   exists msg,
     validate_expense_data float_of_string int_of_string data
       = Returns (false, msg) /\
     msg <> EmptyString /\
     create_expense float_of_string int_of_string data
       = ([], BadRequest msg) /\
     existsb is_engine_call
       (fst (create_expense float_of_string int_of_string data)) = false) /\
  (Qabs (total_contributions - total_amount) <= 1 # 100 ->
   validate_expense_data float_of_string int_of_string data
     = Returns (true, EmptyString)).
Proof.
  intros Hv Htruthy Hfields Hiter Hlen Hloop.
  split; [by apply check_participants_sum|].
  assert (Hvalidate :
    validate_expense_data float_of_string int_of_string data
    = if decide ((1 # 100) < Qabs (total_contributions - total_amount))
      then Returns (false,
                    sum_mismatch_message total_contributions total_amount)
      else Returns (true, EmptyString)).
  { unfold validate_expense_data. rewrite Hfields. simpl.
    unfold dict_get_default. rewrite Hv. simpl. rewrite Htruthy, Hiter. simpl.
    rewrite Hlen, Z.eqb_refl. simpl. rewrite Hloop. done. }
  split.
  - intros Hfar. rewrite decide_True in Hvalidate by done.
    eexists. split; [exact Hvalidate|].
    split; [apply sum_mismatch_message_nonempty|].
    rewrite (create_expense_rejected _ _ Hvalidate). done.
  - intros Hnear. rewrite decide_False in Hvalidate by by apply Qle_not_lt.
    exact Hvalidate.
Qed.

End ValidatorFacts.

(** ** The theorems at the example inputs *)

Example validate_request_short :
  validate_expense_data Examples.float_of_string Examples.int_of_string
    Examples.request_short
  = Returns (false,
      "Sum of contributions ($80.00) must equal total amount ($90.00)"%string).
Proof. by vm_compute. Qed.

Example create_request_abc :
  exists ps' t,
    create_expense Examples.float_of_string Examples.int_of_string
      Examples.request_abc
    = ([EngineCalled Examples.abc 90; ExpenseSaved ps'],
       Created ps' [t]) /\
    dict_get "from_person" t = Some (JStr "A") /\
    dict_get "to_person" t = Some (JStr "C") /\
    exists q, dict_get "amount" t = Some (JFloat q) /\ q == 30.
Proof.
  eexists _, _. split; [by vm_compute|]. split; [done|]. split; [done|].
  eexists. split; [done|]. by vm_compute.
Qed.

Lemma abc_names_NoDup : NoDup (name <$> Examples.abc).
Proof. apply (bool_decide_unpack _). by vm_compute. Defined.

Lemma net_transfers_near_balance_witness :
  exists ps' ts,
    calculate_settlements Examples.abc 90 = Returns (ps', ts) /\
    Qabs (net ts (name (mkParticipant "A" 0 None 0))
          - (contribution (mkParticipant "A" 0 None 0) - share Examples.abc 90))
    <= (inject_Z (Z.of_nat (length Examples.abc)) - 1) * eps.
Proof.
  eexists _, _. split; [by vm_compute|].
  eapply (net_transfers_near_balance Examples.abc 90 _ _ 0%nat
           (mkParticipant "A" 0 None 0)).
  - exact abc_names_NoDup.
  - by vm_compute.
  - by vm_compute.
  - reflexivity.
Defined.

Lemma transfer_count_bound_witness :
  exists ps' ts,
    calculate_settlements Examples.abc 90 = Returns (ps', ts) /\
    (Z.of_nat (length ts)
     <= Z.max 0 (Z.of_nat (length (debtors_of (step2 Examples.abc 90)))
                 + Z.of_nat (length (creditors_of (step2 Examples.abc 90)))
                 - 1))%Z.
Proof.
  eexists _, _. split; [by vm_compute|].
  eapply (transfer_count_bound Examples.abc 90). by vm_compute.
Defined.

Lemma balances_sum_to_zero_witness :
  sum_contribution Examples.abc == 90 /\
  sum_bal (step2 Examples.abc 90) == 0.
Proof.
  split; [by vm_compute|].
  apply (balances_sum_to_zero Examples.abc 90). by vm_compute.
Defined.

Lemma calculate_settlements_idempotent_witness :
  exists ps' ts,
    calculate_settlements Examples.abc 90 = Returns (ps', ts) /\
    calculate_settlements ps' 90 = Returns (ps', ts).
Proof.
  eexists _, _. split; [by vm_compute|].
  apply (proj2 calculate_settlements_idempotent Examples.abc 90).
  by vm_compute.
Defined.

Lemma settled_participant_in_no_transfer_witness :
  Examples.abc !! 1%nat = Some (mkParticipant "B" 30 None 0) /\
  - eps <= 30 - share Examples.abc 90 /\
  30 - share Examples.abc 90 <= eps /\
  (1%nat ∉ debtors_of (step2 Examples.abc 90)) /\
  (1%nat ∉ creditors_of (step2 Examples.abc 90)).
Proof.
  assert (Hlo : - eps <= 30 - share Examples.abc 90) by by vm_compute.
  assert (Hhi : 30 - share Examples.abc 90 <= eps) by by vm_compute.
  split; [done|]. split; [done|]. split; [done|].
  destruct (settled_participant_in_no_transfer Examples.abc 90 1%nat
              (mkParticipant "B" 30 None 0) eq_refl Hlo Hhi) as (HD & HC & _).
  by split.
Defined.

Lemma transfers_positive_and_rounded_witness :
  exists ps' ts,
    calculate_settlements Examples.abc 90 = Returns (ps', ts) /\
    Forall (fun t => eps <= amount t /\ 0 < amount t) ts.
Proof.
  eexists _, _. split; [by vm_compute|].
  eapply Forall_impl.
  - eapply (transfers_positive_and_rounded Examples.abc 90). by vm_compute.
  - intros t (H1 & H2 & _). by split.
Defined.

Lemma sum_check_decides_witness :
  exists total_contributions,
    check_participants Examples.float_of_string
      [Examples.person "A" 0; Examples.person "B" 30; Examples.person "C" 60] 0
    = Returns (inr total_contributions) /\
    Qabs (total_contributions - 90) <= 1 # 100 /\
    validate_expense_data Examples.float_of_string Examples.int_of_string
      Examples.request_abc
    = Returns (true, EmptyString).
Proof.
  eexists. split; [by vm_compute|]. split; [by vm_compute|].
  eapply (sum_check_decides Examples.float_of_string Examples.int_of_string
            Examples.request_abc
            (JList [Examples.person "A" 0; Examples.person "B" 30;
                    Examples.person "C" 60])
            _ 90 3%Z).
  - reflexivity.
  - reflexivity.
  - by vm_compute.
  - reflexivity.
  - reflexivity.
  - by vm_compute.
  - by vm_compute.
Defined.

(** * Further properties of the engine *)

Lemma while_loop_stops_at_once debtors creditors fuel st :
  loop_cond debtors creditors st = false ->
  while_loop debtors creditors fuel st = Some st.
Proof. intros H. destruct fuel; simpl; by rewrite H. Qed.

Lemma step2_bal participants total k p :
  participants !! k = Some p ->
  bal (step2 participants total) k = contribution p - share participants total.
Proof.
  intros Hk. unfold bal.
  by rewrite (list_lookup_total_correct _ _ _ (step2_lookup _ total _ _ Hk)).
Qed.

Lemma no_debtor participants total :
  Forall (fun p => - eps <= contribution p - share participants total)
         participants ->
  debtors_of (step2 participants total) = [].
Proof.
  intros Hall. apply elem_of_nil_inv. intros k Hk.
  apply debtors_of_spec in Hk as [Hlt Hbal]. rewrite step2_length in Hlt.
  destruct (lookup_lt_is_Some_2 participants k Hlt) as [p Hp].
  rewrite (step2_bal _ _ _ _ Hp) in Hbal.
  pose proof (proj1 (Forall_lookup _ _) Hall k p Hp) as Hge. simpl in Hge. lra.
Qed.

Lemma no_creditor participants total :
  Forall (fun p => contribution p - share participants total <= eps)
         participants ->
  creditors_of (step2 participants total) = [].
Proof.
  intros Hall. apply elem_of_nil_inv. intros k Hk.
  apply creditors_of_spec in Hk as [Hlt Hbal]. rewrite step2_length in Hlt.
  destruct (lookup_lt_is_Some_2 participants k Hlt) as [p Hp].
  rewrite (step2_bal _ _ _ _ Hp) in Hbal.
  pose proof (proj1 (Forall_lookup _ _) Hall k p Hp) as Hle. simpl in Hle. lra.
Qed.

Lemma no_party_no_transfer participants total :
  participants <> [] ->
  Forall (fun p => - eps <= contribution p - share participants total)
         participants \/
  Forall (fun p => contribution p - share participants total <= eps)
         participants ->
  calculate_settlements participants total
  = Returns (step2 participants total, []).
Proof.
  intros Hne Hside. destruct participants as [|p ps]; [done|].
  rewrite calculate_settlements_unfold. cbv zeta.
  rewrite while_loop_stops_at_once; [done|].
  unfold loop_cond. destruct Hside as [H|H].
  - by rewrite (no_debtor _ _ H).
  - rewrite (no_creditor _ _ H). simpl. apply andb_false_r.
Qed.

(** X1.  When no participant owes more than 0.01, or when none is owed
    more than 0.01, the engine emits no transfer and returns the
    participants with the balances of step 2, [contribution - share],
    untouched.  This covers the equal split, and the expense nobody has
    paid yet. *)
Theorem one_sided_input_no_transfer participants total :
  participants <> [] ->
  Forall (fun p => - eps <= contribution p - share participants total)
         participants \/
  Forall (fun p => contribution p - share participants total <= eps)
         participants ->
  calculate_settlements participants total
  = Returns (step2 participants total, []).
Proof. apply no_party_no_transfer. Qed.

Lemma one_sided_input_no_transfer_witness :
  calculate_settlements Examples.unpaid 90
  = Returns (step2 Examples.unpaid 90, []).
Proof.
  apply (one_sided_input_no_transfer Examples.unpaid 90); [done|].
  right. repeat constructor; by vm_compute.
Defined.

(** ** The order of the debtor and creditor lists *)

Lemma insert_asc_sorted store x l :
  Forall (lt x) l ->
  StronglySorted (before_asc store) l ->
  StronglySorted (before_asc store) (insert_asc store x l).
Proof.
  intros Hx Hs. induction Hs as [|y l Hs IH Hy]; simpl.
  - repeat constructor.
  - apply Forall_cons in Hx as [Hxy Hx].
    destruct (decide (bal store y < bal store x)) as [Hlt|Hge].
    + constructor; [by apply IH|].
      rewrite insert_asc_perm. constructor; [by left|done].
    + apply Qnot_lt_le in Hge.
      assert (Hxy' : before_asc store x y).
      { destruct (Qlt_le_dec (bal store x) (bal store y)) as [H|H]; [by left|].
        right. split; [lra|done]. }
      constructor; [by constructor|]. constructor; [done|].
      apply Forall_forall. intros z Hz.
      pose proof (proj1 (Forall_forall _ _) Hy z Hz) as Hyz.
      pose proof (proj1 (Forall_forall _ _) Hx z Hz) as Hxz.
      unfold before_asc in *.
      destruct (Qlt_le_dec (bal store x) (bal store z)) as [H|H]; [by left|].
      right. split; [|done]. destruct Hxy' as [?|[? _]], Hyz as [?|[? _]]; lra.
Qed.

Lemma sort_asc_sorted store l :
  StronglySorted lt l -> StronglySorted (before_asc store) (sort_asc store l).
Proof.
  induction 1 as [|x l Hs IH Hx]; simpl; [constructor|].
  apply insert_asc_sorted; [|done]. by rewrite sort_asc_perm.
Qed.

Lemma insert_desc_sorted store x l :
  Forall (lt x) l ->
  StronglySorted (before_desc store) l ->
  StronglySorted (before_desc store) (insert_desc store x l).
Proof.
  intros Hx Hs. induction Hs as [|y l Hs IH Hy]; simpl.
  - repeat constructor.
  - apply Forall_cons in Hx as [Hxy Hx].
    destruct (decide (bal store x < bal store y)) as [Hlt|Hge].
    + constructor; [by apply IH|].
      rewrite insert_desc_perm. constructor; [by left|done].
    + apply Qnot_lt_le in Hge.
      assert (Hxy' : before_desc store x y).
      { destruct (Qlt_le_dec (bal store y) (bal store x)) as [H|H]; [by left|].
        right. split; [lra|done]. }
      constructor; [by constructor|]. constructor; [done|].
      apply Forall_forall. intros z Hz.
      pose proof (proj1 (Forall_forall _ _) Hy z Hz) as Hyz.
      pose proof (proj1 (Forall_forall _ _) Hx z Hz) as Hxz.
      unfold before_desc in *.
      destruct (Qlt_le_dec (bal store z) (bal store x)) as [H|H]; [by left|].
      right. split; [|done]. destruct Hxy' as [?|[? _]], Hyz as [?|[? _]]; lra.
Qed.

Lemma sort_desc_sorted store l :
  StronglySorted lt l -> StronglySorted (before_desc store) (sort_desc store l).
Proof.
  induction 1 as [|x l Hs IH Hx]; simpl; [constructor|].
  apply insert_desc_sorted; [|done]. by rewrite sort_desc_perm.
Qed.

Lemma filter_seq_sorted (P : nat -> Prop) `{!forall k, Decision (P k)} j n :
  StronglySorted lt (filter P (seq j n)).
Proof.
  revert j. induction n as [|n IH]; intros j; simpl; [constructor|].
  rewrite filter_cons. case_decide; [|apply IH].
  constructor; [apply IH|].
  apply Forall_forall. intros k Hk.
  apply list_elem_of_filter in Hk as [_ Hk]. apply elem_of_seq in Hk. lia.
Qed.

(** X2.  The debtor list holds exactly the participants with a step-2
    balance below -0.01, each once, the most indebted first; the creditor
    list those with a balance above 0.01, the largest credit first; in both
    lists participants of equal balance keep the order of the participant
    list (the sorts are stable). *)
Theorem partition_sorted store :
  (forall k, k ∈ debtors_of store <->
             (k < length store)%nat /\ bal store k < - eps) /\
  (forall k, k ∈ creditors_of store <->
             (k < length store)%nat /\ eps < bal store k) /\
  NoDup (debtors_of store) /\ NoDup (creditors_of store) /\
  StronglySorted (before_asc store) (debtors_of store) /\
  StronglySorted (before_desc store) (creditors_of store).
Proof.
  split; [apply debtors_of_spec|]. split; [apply creditors_of_spec|].
  split; [apply debtors_of_NoDup|]. split; [apply creditors_of_NoDup|].
  split.
  - apply sort_asc_sorted, filter_seq_sorted.
  - apply sort_desc_sorted, filter_seq_sorted.
Qed.

(** ** The balances the engine returns *)

Section MatchingAmounts.

Variable store0 : list Participant.
Variables debtors creditors : list nat.

Hypothesis debtors_spec :
  forall k, k ∈ debtors -> (k < length store0)%nat /\ bal store0 k < - eps.
Hypothesis creditors_spec :
  forall k, k ∈ creditors -> (k < length store0)%nat /\ eps < bal store0 k.

Local Abbreviation inv := (inv store0 debtors creditors).

(** The amount of an iteration: at least the tolerance, at most what the
    debtor owes and what the creditor is owed. *)
Lemma current_amount_bounds st d c :
  inv st ->
  debtors !! st_i st = Some d ->
  creditors !! st_j st = Some c ->
  let a := py_min (Qabs (bal (st_store st) d)) (bal (st_store st) c) in
  eps <= a /\ a <= - bal (st_store st) d /\ a <= bal (st_store st) c.
Proof.
  intros Hinv Hd Hc a.
  destruct (inv_debtors _ _ _ _ Hinv _ _ Hd) as [_ Hdle]. specialize (Hdle (le_n _)).
  destruct (inv_creditors _ _ _ _ Hinv _ _ Hc) as [_ Hcge]. specialize (Hcge (le_n _)).
  assert (Habs : Qabs (bal (st_store st) d) == - bal (st_store st) d)
    by (apply Qabs_neg; unfold eps in *; lra).
  unfold a.
  destruct (py_min_spec (Qabs (bal (st_store st) d)) (bal (st_store st) c))
    as [[-> Hle]|[-> Hlt]]; lra.
Qed.

Lemma toward_zero_init : toward_zero store0 (init store0).
Proof.
  intros k. simpl.
  destruct (Qlt_le_dec 0 (bal store0 k)); [right|left]; split; lra.
Qed.

Lemma toward_zero_step st :
  inv st -> toward_zero store0 st ->
  loop_cond debtors creditors st = true ->
  toward_zero store0 (loop_body debtors creditors st).
Proof.
  intros Hinv Hz Hcond.
  destruct (loop_cond_current debtors creditors st Hcond)
    as (d & c & Hd & Hc & _).
  pose proof (list_elem_of_lookup_2 _ _ _ Hd) as Hdin.
  pose proof (list_elem_of_lookup_2 _ _ _ Hc) as Hcin.
  pose proof (debtor_not_creditor store0 debtors creditors
                debtors_spec creditors_spec _ _ Hdin Hcin) as Hne.
  destruct (debtors_spec _ Hdin) as [Hdl _].
  destruct (creditors_spec _ Hcin) as [Hcl _].
  rewrite <- (inv_length _ _ _ _ Hinv) in Hdl, Hcl.
  destruct (loop_body_facts debtors creditors st d c Hd Hc Hne Hdl Hcl)
    as (_ & Hbd & Hbc & Hoth & _).
  destruct (current_amount_bounds st d c Hinv Hd Hc) as (Ha1 & Ha2 & Ha3).
  destruct (inv_debtors _ _ _ _ Hinv _ _ Hd) as [_ Hdle]. specialize (Hdle (le_n _)).
  destruct (inv_creditors _ _ _ _ Hinv _ _ Hc) as [_ Hcge]. specialize (Hcge (le_n _)).
  set (a := py_min (Qabs (bal (st_store st) d)) (bal (st_store st) c)) in *.
  unfold eps in *. intros k.
  destruct (decide (k = d)) as [->|Hkd]; [|destruct (decide (k = c)) as [->|Hkc]].
  - rewrite Hbd. destruct (Hz d) as [[H1 H2]|[H1 H2]]; [left; split; lra | lra].
  - rewrite Hbc. destruct (Hz c) as [[H1 H2]|[H1 H2]]; [lra | right; split; lra].
  - assert (Hk : bal (st_store (loop_body debtors creditors st)) k
                 = bal (st_store st) k)
      by (unfold bal; by rewrite (Hoth k Hkd Hkc)).
    rewrite Hk. apply Hz.
Qed.

End MatchingAmounts.

Lemma returned_between participants total ps' ts :
  calculate_settlements participants total = Returns (ps', ts) ->
  (forall k p p', participants !! k = Some p -> ps' !! k = Some p' ->
     between_zero_and (contribution p - share participants total) p') /\
  (Forall (fun p' => - eps <= settlement_amount p') ps' \/
   Forall (fun p' => settlement_amount p' <= eps) ps').
Proof.
  intros Hrun. destruct participants as [|q qs].
  { injection Hrun as <- <-. split; [done|]. left. constructor. }
  set (store := step2 (q :: qs) total).
  destruct (calculate_settlements_run (q :: qs) total (toward_zero store))
    as (st & Hst & Hinv & Hz & Hcond); [done|apply toward_zero_init| |].
  { intros st Hinv Hz Hcond.
    apply (toward_zero_step store (debtors_of store) (creditors_of store)
             (fun k H => proj1 (debtors_of_spec store k) H)
             (fun k H => proj1 (creditors_of_spec store k) H)
             st Hinv Hz Hcond). }
  rewrite Hst in Hrun. injection Hrun as <- <-. split.
  - intros k p p' Hp Hp'. specialize (Hz k). unfold bal in Hz.
    rewrite (list_lookup_total_correct _ _ _ Hp') in Hz.
    unfold store in Hz.
    rewrite (list_lookup_total_correct _ _ _ (step2_lookup _ total _ _ Hp)) in Hz.
    exact Hz.
  - by apply (final_balances_one_sided store).
Qed.

(** X3.  The participants come back in the same number and order, with
    their names, contributions and phone numbers; the [settlement_amount]
    of each is what the matching loop has left of its step-2 balance
    [contribution - share]: between zero and that balance.  The returned
    balances are one-sided: either none is below -0.01 or none is above 0.01. *)
Theorem returned_balances participants total ps' ts :
  calculate_settlements participants total = Returns (ps', ts) ->
  Forall2 (fun p p' =>
             same_input p p' /\
             between_zero_and (contribution p - share participants total) p')
          participants ps' /\
  (Forall (fun p' => - eps <= settlement_amount p') ps' \/
   Forall (fun p' => settlement_amount p' <= eps) ps').
Proof.
  intros Hrun.
  destruct (returned_between _ _ _ _ Hrun) as [Hbetween Hside].
  split; [|done].
  pose proof (calculate_settlements_keeps_input _ _ _ _ Hrun) as Hsame.
  apply Forall2_same_length_lookup_2; [by eapply Forall2_length|].
  intros k p p' Hp Hp'. split; [|by eapply Hbetween].
  by eapply Forall2_lookup_lr.
Qed.

Lemma returned_balances_witness :
  exists ps' ts,
    calculate_settlements Examples.abc 90 = Returns (ps', ts) /\
    (Forall (fun p' => - eps <= settlement_amount p') ps' \/
     Forall (fun p' => settlement_amount p' <= eps) ps').
Proof.
  eexists _, _. split; [by vm_compute|].
  eapply (returned_balances Examples.abc 90). by vm_compute.
Defined.

(** ** What each participant pays and receives *)

Lemma received_nonneg ts s :
  Forall (fun t => 0 <= amount t) ts -> 0 <= received ts s.
Proof.
  unfold received. induction 1 as [|t ts Ht _ IH]; simpl; [lra|].
  case_decide; lra.
Qed.

Lemma paid_nonneg ts s :
  Forall (fun t => 0 <= amount t) ts -> 0 <= paid ts s.
Proof.
  unfold paid. induction 1 as [|t ts Ht _ IH]; simpl; [lra|].
  case_decide; lra.
Qed.

Lemma received_none ts s :
  Forall (fun t => to_person t <> s) ts -> received ts s = 0.
Proof.
  unfold received. induction 1 as [|t ts Ht _ IH]; simpl; [done|].
  by rewrite decide_False.
Qed.

Lemma paid_none ts s :
  Forall (fun t => from_person t <> s) ts -> paid ts s = 0.
Proof.
  unfold paid. induction 1 as [|t ts Ht _ IH]; simpl; [done|].
  by rewrite decide_False.
Qed.

(** Every transfer is of at least 0.01, from a debtor to a creditor. *)
Lemma transfers_between_parties participants total ps' ts :
  calculate_settlements participants total = Returns (ps', ts) ->
  Forall (fun t => exists d c,
            d ∈ debtors_of (step2 participants total) /\
            c ∈ creditors_of (step2 participants total) /\
            from_person t = name (participants !!! d) /\
            to_person t = name (participants !!! c) /\
            eps <= amount t) ts.
Proof.
  intros Hrun. destruct participants as [|q qs]; [by injection Hrun as <- <-|].
  destruct (calculate_settlements_run_inv (q :: qs) total)
    as (st & Hst & Hinv & _); [done|].
  rewrite Hst in Hrun. injection Hrun as <- <-.
  eapply Forall_impl; [apply (inv_transfers _ _ _ _ Hinv)|].
  intros t (Hge & d & c & Hd & Hc & Hfrom & Hto).
  exists d, c. rewrite step2_name in Hfrom, Hto. done.
Qed.

Lemma name_identifies participants k k' p :
  NoDup (name <$> participants) ->
  participants !! k = Some p ->
  (k' < length participants)%nat ->
  name (participants !!! k') = name p -> k' = k.
Proof.
  intros Hnames Hk Hk' Heq.
  apply (NoDup_lookup _ _ _ (name p) Hnames).
  - rewrite list_lookup_fmap, (list_lookup_lookup_total_lt _ _ Hk'). simpl.
    by rewrite Heq.
  - by rewrite list_lookup_fmap, Hk.
Qed.

(** X4.  With pairwise distinct names nobody is made to pay or receive too
    much.  A participant whose step-2 balance [b] is not below -0.01 pays
    nothing, and one whose balance is not above 0.01 receives nothing; a
    debtor pays at most what it owes, [-b], and a creditor receives at most
    what it is owed, [b]. *)
Theorem nobody_overpays participants total ps' ts k p :
  NoDup (name <$> participants) ->
  calculate_settlements participants total = Returns (ps', ts) ->
  participants !! k = Some p ->
  let b := contribution p - share participants total in
  0 <= paid ts (name p) /\ 0 <= received ts (name p) /\
  (- eps <= b -> paid ts (name p) = 0) /\
  (b <= eps -> received ts (name p) = 0) /\
  (b < - eps -> paid ts (name p) <= - b) /\
  (eps < b -> received ts (name p) <= b).
Proof.
  intros Hnames Hrun Hk b.
  pose proof (transfers_between_parties _ _ _ _ Hrun) as Hts.
  assert (Hpos : Forall (fun t => 0 <= amount t) ts).
  { eapply Forall_impl; [exact Hts|].
    intros t (d & c & _ & _ & _ & _ & Hge). unfold eps in Hge. lra. }
  assert (Hbal : bal (step2 participants total) k = b)
    by by apply step2_bal.
  assert (Hpaid0 : - eps <= b -> paid ts (name p) = 0).
  { intros Hb. apply paid_none. eapply Forall_impl; [exact Hts|].
    intros t (d & c & Hd & _ & Hfrom & _) Heq.
    apply debtors_of_spec in Hd as [Hdl Hdb]. rewrite step2_length in Hdl.
    rewrite Hfrom in Heq.
    rewrite (name_identifies _ _ _ _ Hnames Hk Hdl Heq), Hbal in Hdb. lra. }
  assert (Hrec0 : b <= eps -> received ts (name p) = 0).
  { intros Hb. apply received_none. eapply Forall_impl; [exact Hts|].
    intros t (d & c & _ & Hc & _ & Hto & _) Heq.
    apply creditors_of_spec in Hc as [Hcl Hcb]. rewrite step2_length in Hcl.
    rewrite Hto in Heq.
    rewrite (name_identifies _ _ _ _ Hnames Hk Hcl Heq), Hbal in Hcb. lra. }
  destruct (net_plus_residual _ _ _ _ _ _ Hnames Hrun Hk) as (p' & Hp' & Hnet).
  destruct (returned_between _ _ _ _ Hrun) as [Hbetween _].
  specialize (Hbetween k p p' Hk Hp'). fold b in Hnet, Hbetween.
  unfold net in Hnet. unfold between_zero_and in Hbetween.
  split; [by apply paid_nonneg|]. split; [by apply received_nonneg|].
  split; [done|]. split; [done|]. unfold eps in *. split.
  - intros Hb. rewrite Hrec0 in Hnet by lra. destruct Hbetween; lra.
  - intros Hb. rewrite Hpaid0 in Hnet by lra. destruct Hbetween; lra.
Qed.

Lemma nobody_overpays_witness :
  exists ps' ts,
    calculate_settlements Examples.abc 90 = Returns (ps', ts) /\
    paid ts "A" <= - (0 - share Examples.abc 90).
Proof.
  eexists _, _. split; [by vm_compute|].
  eapply (nobody_overpays Examples.abc 90 _ _ 0%nat (mkParticipant "A" 0 None 0)).
  - exact abc_names_NoDup.
  - by vm_compute.
  - reflexivity.
  - by vm_compute.
Defined.

(** ** The order of the transfers *)

Lemma settlements_iterate_S debtors creditors m st0 :
  let st := iterate debtors creditors m st0 in
  st_settlements (iterate debtors creditors (S m) st0)
  = st_settlements st ++
    [mkSettlement (name (st_store st !!! (debtors !!! st_i st)))
                  (name (st_store st !!! (creditors !!! st_j st)))
                  (py_min (Qabs (bal (st_store st) (debtors !!! st_i st)))
                          (bal (st_store st) (creditors !!! st_j st)))].
Proof. cbv zeta. by rewrite iterate_S. Qed.

Lemma settlements_iterate_length debtors creditors m store :
  length (st_settlements (iterate debtors creditors m (init store))) = m.
Proof.
  induction m as [|m IH]; [done|].
  rewrite settlements_iterate_S. cbv zeta. rewrite last_length. by rewrite IH.
Qed.

Lemma settlements_iterate_prefix debtors creditors m n st0 :
  (m <= n)%nat ->
  st_settlements (iterate debtors creditors m st0)
  `prefix_of` st_settlements (iterate debtors creditors n st0).
Proof.
  induction 1 as [|n Hle IH]; [done|].
  etrans; [exact IH|]. rewrite settlements_iterate_S. cbv zeta.
  by apply prefix_app_r.
Qed.

(** Pointers never move back along a run. *)
Lemma pointers_monotone store m n :
  let debtors := debtors_of store in
  let creditors := creditors_of store in
  (forall m', (m' < n)%nat ->
     loop_cond debtors creditors (iterate debtors creditors m' (init store))
     = true) ->
  (m <= n)%nat ->
  (st_i (iterate debtors creditors m (init store))
   <= st_i (iterate debtors creditors n (init store)))%nat /\
  (st_j (iterate debtors creditors m (init store))
   <= st_j (iterate debtors creditors n (init store)))%nat.
Proof.
  intros debtors creditors Hbefore Hle.
  induction Hle as [|n Hle IH]; [done|].
  destruct IH as [IHi IHj]; [intros m' Hm'; apply Hbefore; lia|].
  set (st := iterate debtors creditors n (init store)) in *.
  assert (Hinv : inv store debtors creditors st).
  { apply (inv_iterate store debtors creditors
             (debtors_of_NoDup store) (creditors_of_NoDup store)
             (fun k H => proj1 (debtors_of_spec store k) H)
             (fun k H => proj1 (creditors_of_spec store k) H)).
    intros m' Hm'. apply Hbefore. lia. }
  destruct (loop_cond_current debtors creditors st (Hbefore n (Nat.lt_succ_diag_r n)))
    as (d & c & Hd & Hc & _).
  destruct (loop_body_progress store debtors creditors
              (fun k H => proj1 (debtors_of_spec store k) H)
              (fun k H => proj1 (creditors_of_spec store k) H)
              st d c Hinv Hd Hc) as (_ & Hi & Hj & _).
  rewrite iterate_S. fold st. lia.
Qed.

(** X5.  The transfers come in the order of the sorted lists.  The engine
    runs [n] iterations and emits [n] transfers; the transfer of rank [m] is
    the one of iteration [m]: from the debtor under the pointer [i] to the
    creditor under the pointer [j], of the smaller of what the one still
    owes and the other is still owed; and the pointers of a later transfer
    are not before those of an earlier one. *)
Theorem transfers_in_pointer_order p ps total :
  let store := step2 (p :: ps) total in
  let debtors := debtors_of store in
  let creditors := creditors_of store in
  exists n ps' ts,
    calculate_settlements (p :: ps) total = Returns (ps', ts) /\
    length ts = n /\
    forall m, (m < n)%nat ->
      let st := iterate debtors creditors m (init store) in
      ts !! m
      = Some (mkSettlement
                (name ((p :: ps) !!! (debtors !!! st_i st)))
                (name ((p :: ps) !!! (creditors !!! st_j st)))
                (py_min (Qabs (bal (st_store st) (debtors !!! st_i st)))
                        (bal (st_store st) (creditors !!! st_j st)))) /\
      (st_i st < length debtors)%nat /\ (st_j st < length creditors)%nat /\
      forall m', (m <= m')%nat -> (m' < n)%nat ->
        let st' := iterate debtors creditors m' (init store) in
        (st_i st <= st_i st')%nat /\ (st_j st <= st_j st')%nat.
Proof.
  intros store debtors creditors.
  destruct (calculate_settlements_steps (p :: ps) total)
    as (n & Hn & Hrun & Hend & Hbefore & Hinv); [done|].
  fold store debtors creditors in Hn, Hrun, Hend, Hbefore, Hinv.
  exists n. eexists _, _. split; [exact Hrun|].
  split; [apply settlements_iterate_length|].
  intros m Hm st. split; [|split; [|split]].
  - assert (Hpre : st_settlements (iterate debtors creditors (S m) (init store))
                   `prefix_of`
                   st_settlements (iterate debtors creditors n (init store)))
      by (apply settlements_iterate_prefix; lia).
    eapply prefix_lookup_Some; [|exact Hpre].
    rewrite settlements_iterate_S. cbv zeta.
    rewrite lookup_app_r by by rewrite settlements_iterate_length.
    rewrite settlements_iterate_length, Nat.sub_diag. simpl. fold st.
    destruct (inv_fields _ _ _ _ (Hinv m (Nat.lt_le_incl _ _ Hm))
                (debtors !!! st_i st)) as (Hnd & _).
    destruct (inv_fields _ _ _ _ (Hinv m (Nat.lt_le_incl _ _ Hm))
                (creditors !!! st_j st)) as (Hnc & _).
    fold st in Hnd, Hnc. rewrite Hnd, Hnc. unfold store.
    by rewrite !step2_name.
  - destruct (loop_cond_current debtors creditors st (Hbefore m Hm))
      as (_ & _ & _ & _ & Hi & _). exact Hi.
  - destruct (loop_cond_current debtors creditors st (Hbefore m Hm))
      as (_ & _ & _ & _ & _ & Hj). exact Hj.
  - intros m' Hmm' Hm' st'.
    apply (pointers_monotone store m m'); [|done].
    intros k Hk. apply Hbefore. lia.
Qed.

(** * Phone numbers *)

Lemma count_digits_length s : count_digits s = String.length (digits_of s).
Proof.
  induction s as [|c s IH]; [done|]. simpl.
  destruct (is_digit c); simpl; by rewrite IH.
Qed.

Lemma validate_phone_number_digits s :
  validate_phone_number s
  = ((10 <=? count_digits s) && (count_digits s <=? 15))%nat.
Proof. by destruct s. Qed.

Lemma digits_of_app s1 s2 :
  digits_of (s1 +:+ s2) = (digits_of s1 +:+ digits_of s2)%string.
Proof.
  induction s1 as [|c s1 IH]; [done|]. simpl.
  destruct (is_digit c); simpl; by rewrite IH.
Qed.

Lemma digits_of_all_digits s : all_digits (digits_of s) = true.
Proof.
  induction s as [|c s IH]; [done|]. simpl.
  destruct (is_digit c) eqn:Hc; [|done]. simpl. by rewrite Hc.
Qed.

Lemma digits_of_digits s : all_digits s = true -> digits_of s = s.
Proof.
  induction s as [|c s IH]; [done|]. simpl.
  intros [Hc Hs]%andb_true_iff. rewrite Hc. by rewrite IH.
Qed.

Lemma String_length_app s1 s2 :
  String.length (s1 +:+ s2) = (String.length s1 + String.length s2)%nat.
Proof. induction s1 as [|c s1 IH]; [done|]. simpl. by rewrite IH. Qed.

(** The digits that [format_phone_number] keeps, with the country code 1
    in front when there are ten. *)
Lemma format_phone_number_digits phone :
  phone <> EmptyString ->
  exists digits,
    format_phone_number phone = Some ("whatsapp:+" +:+ digits)%string /\
    all_digits digits = true /\
    String.length digits <> 10%nat /\
    (validate_phone_number phone = true ->
     (11 <= String.length digits <= 15)%nat).
Proof.
  intros Hne.
  set (ds := if (String.length (digits_of phone) =? 10)%nat
             then ("1" +:+ digits_of phone)%string else digits_of phone).
  exists ds. split; [by destruct phone|]. split; [|split].
  - unfold ds. destruct (_ =? _)%nat; [|apply digits_of_all_digits].
    simpl. apply digits_of_all_digits.
  - unfold ds. destruct (Nat.eqb_spec (String.length (digits_of phone)) 10)
      as [H|H]; [|done]. rewrite String_length_app. simpl. lia.
  - rewrite validate_phone_number_digits, count_digits_length.
    intros [H1 H2]%andb_true_iff. apply Nat.leb_le in H1, H2.
    unfold ds. destruct (Nat.eqb_spec (String.length (digits_of phone)) 10)
      as [H|H]; [rewrite String_length_app; simpl; lia | lia].
Qed.

(** X6.  [format_phone_number] gives nothing for the empty string and
    otherwise ["whatsapp:+"] followed by digits only, never exactly ten of
    them (ten digits get the country code 1 in front).  Formatting the
    result again changes nothing.  A number that [validate_phone_number]
    accepts is formatted with 11 to 15 digits and is still accepted. *)
Theorem format_phone_number_shape phone :
  (phone = EmptyString -> format_phone_number phone = None) /\
  (phone <> EmptyString ->
   exists digits,
     format_phone_number phone = Some ("whatsapp:+" +:+ digits)%string /\
     all_digits digits = true /\
     String.length digits <> 10%nat /\
     format_phone_number ("whatsapp:+" +:+ digits)
       = Some ("whatsapp:+" +:+ digits)%string /\
     (validate_phone_number phone = true ->
      (11 <= String.length digits <= 15)%nat /\
      validate_phone_number ("whatsapp:+" +:+ digits) = true)).
Proof.
  split; [by intros ->|]. intros Hne.
  destruct (format_phone_number_digits phone Hne)
    as (ds & Hfmt & Hall & Hlen & Hrange).
  exists ds. split; [done|]. split; [done|]. split; [done|].
  assert (Hds : digits_of ("whatsapp:+" +:+ ds) = ds).
  { rewrite digits_of_app. change (digits_of "whatsapp:+") with EmptyString.
    by apply digits_of_digits. }
  split.
  - change (format_phone_number ("whatsapp:+" +:+ ds))
      with (Some ("whatsapp:+" +:+
                  (if (String.length (digits_of ("whatsapp:+" +:+ ds)) =? 10)%nat
                   then "1" +:+ digits_of ("whatsapp:+" +:+ ds)
                   else digits_of ("whatsapp:+" +:+ ds)))%string).
    rewrite Hds. by destruct (Nat.eqb_spec (String.length ds) 10).
  - intros Hv. specialize (Hrange Hv). split; [done|].
    rewrite validate_phone_number_digits, count_digits_length, Hds.
    apply andb_true_iff. split; apply Nat.leb_le; lia.
Qed.

Lemma format_phone_number_shape_witness :
  exists digits,
    format_phone_number "(555) 123-4567"
      = Some ("whatsapp:+" +:+ digits)%string /\
    all_digits digits = true.
Proof.
  destruct (proj2 (format_phone_number_shape "(555) 123-4567"))
    as (digits & Hfmt & Hall & _); [done|].
  by exists digits.
Defined.

(** * What the validator guarantees to the flow *)

Lemma calculate_settlements_returns participants total :
  exists ps' ts, calculate_settlements participants total = Returns (ps', ts).
Proof.
  destruct participants as [|p ps]; [by eexists _, _|].
  destruct (calculate_settlements_run_inv (p :: ps) total) as (st & -> & _);
    [done|by eexists _, _].
Qed.

Section FlowFacts.

Variable float_of_string : string -> option Q.
Variable int_of_string : string -> option Z.

Lemma check_fields_ok data total_amount num_people :
  check_fields float_of_string int_of_string data
    = Returns (inr (total_amount, num_people)) ->
  exists v_total v_num,
    dict_get "total_amount" data = Some v_total /\
    dict_get "num_people" data = Some v_num /\
    py_float float_of_string v_total = Returns total_amount /\
    py_int int_of_string v_num = Returns num_people /\
    Config.MIN_AMOUNT <= total_amount /\ total_amount <= Config.MAX_AMOUNT /\
    (1 <= num_people <= Config.MAX_PARTICIPANTS)%Z.
Proof.
  unfold check_fields.
  destruct (dict_get "total_amount" data) as [v_total|]; [|done].
  destruct (dict_get "num_people" data) as [v_num|]; [|done].
  destruct (py_float float_of_string v_total) as [t|e|] eqn:Ht; simpl;
    [|by destruct e|done].
  destruct (decide (t < Config.MIN_AMOUNT)) as [|Hmin]; simpl; [done|].
  destruct (decide (Config.MAX_AMOUNT < t)) as [|Hmax]; simpl; [done|].
  destruct (py_int int_of_string v_num) as [n|e|] eqn:Hn; simpl;
    [|by destruct e|done].
  destruct (Z.ltb_spec n 1); simpl; [done|].
  destruct (Z.ltb_spec Config.MAX_PARTICIPANTS n); simpl; [done|].
  intros [= <- <-]. exists v_total, v_num.
  apply Qnot_lt_le in Hmin, Hmax. repeat split; try done; lia.
Qed.

Lemma check_participant_ok p acc acc' :
  check_participant float_of_string p acc = Returns (inr acc') ->
  exists participant,
    accepted_participant float_of_string p participant /\
    acc' = acc + contribution participant /\
    build_participant float_of_string p = Returns participant.
Proof.
  unfold check_participant, build_participant, accepted_participant.
  destruct p as [| | | |s|l|d]; simpl; try done.
  - destruct (is_substring "name" s); simpl; done.
  - destruct (existsb is_name l); simpl; done.
  - destruct (dict_get "name" d) as [v|] eqn:Hname; simpl; [|done].
    destruct v as [| | | |s| |]; simpl; try done.
    destruct (strip s) as [|a s0] eqn:Hstrip; [done|].
    destruct (py_float float_of_string (dict_get_default "contribution" (JInt 0) d))
      as [q|e|] eqn:Hq; simpl; [|by destruct e|done].
    destruct (decide (q < 0)) as [|Hq0]; simpl; [done|].
    destruct (dict_get_default "phone_number" (JStr "") d) as [| | | |s'| |]
      eqn:Hphone; simpl; try done.
    destruct (negb (String.eqb (strip s') "") && negb (validate_phone_number (strip s')))
      eqn:Hvalid; simpl; [done|].
    intros [= <-].
    exists (mkParticipant (String a s0) q
              (if String.eqb (strip s') "" then None else Some (strip s')) 0).
    split; [|done].
    exists d, s, (strip s'). rewrite Hstrip. simpl.
    apply Qnot_lt_le in Hq0.
    split; [done|]. split; [done|]. split; [done|]. split; [done|].
    split; [exact Hq0|]. split; [by rewrite Hphone|]. split; [|done].
    apply andb_false_iff in Hvalid as [H|H].
    + left. apply negb_false_iff in H. by apply String.eqb_eq.
    + right. by apply negb_false_iff in H.
Qed.

Lemma check_participants_ok items acc tc :
  check_participants float_of_string items acc = Returns (inr tc) ->
  exists participants,
    Forall2 (accepted_participant float_of_string) items participants /\
    build_participants float_of_string items = Returns participants /\
    tc == acc + sum_contribution participants.
Proof.
  revert acc. induction items as [|p items IH]; intros acc; simpl.
  - intros [= <-]. exists []. split; [constructor|]. split; [done|]. simpl. lra.
  - destruct (check_participant float_of_string p acc) as [[msg|acc']|e|] eqn:Hp;
      simpl; try done.
    intros Hrest. apply check_participant_ok in Hp as (part & Hacc & -> & Hbuild).
    destruct (IH _ Hrest) as (parts & Hall & Hbuilds & Hsum).
    exists (part :: parts). split; [by constructor|]. split.
    + by rewrite Hbuild, Hbuilds.
    + rewrite Hsum. simpl. lra.
Qed.

(** The requests that [validate_expense_data] accepts. *)
Lemma validate_accepts data msg :
  validate_expense_data float_of_string int_of_string data = Returns (true, msg) ->
  msg = EmptyString /\
  exists total_amount num_people,
    check_fields float_of_string int_of_string data
      = Returns (inr (total_amount, num_people)) /\
    (truthy (dict_get_default "participants" (JList []) data) = false \/
     truthy (dict_get_default "participants" (JList []) data) = true /\
     exists items total_contributions,
       py_iter (dict_get_default "participants" (JList []) data) = Returns items /\
       Z.of_nat (length items) = num_people /\
       check_participants float_of_string items 0
         = Returns (inr total_contributions) /\
       Qabs (total_contributions - total_amount) <= 1 # 100).
Proof.
  unfold validate_expense_data.
  destruct (check_fields float_of_string int_of_string data)
    as [[m|[t n]]|e|] eqn:Hfields; simpl; try done.
  destruct (truthy (dict_get_default "participants" (JList []) data)) eqn:Htruthy.
  - destruct (py_iter (dict_get_default "participants" (JList []) data))
      as [items|e|] eqn:Hiter; simpl; try done.
    destruct (Z.eqb_spec (Z.of_nat (length items)) n) as [Hlen|Hlen]; simpl;
      [|done].
    destruct (check_participants float_of_string items 0) as [[m|tc]|e|] eqn:Hloop;
      simpl; try done.
    case_decide as Hnear; [by intros [=]|].
    intros [= <-]. split; [done|]. exists t, n. split; [done|]. right.
    split; [done|]. exists items, tc. apply Qnot_lt_le in Hnear.
    split; [done|]. split; [done|]. split; [done|]. exact Hnear.
  - intros [= <-]. split; [done|]. exists t, n. split; [done|]. by left.
Qed.

Lemma prepare_explicit data total_amount num_people items participants :
  check_fields float_of_string int_of_string data
    = Returns (inr (total_amount, num_people)) ->
  truthy (dict_get_default "participants" (JList []) data) = true ->
  py_iter (dict_get_default "participants" (JList []) data) = Returns items ->
  build_participants float_of_string items = Returns participants ->
  prepare float_of_string int_of_string data
  = Returns (participants, total_amount).
Proof.
  intros (v_total & v_num & Ht & Hn & Hft & Hin & _)%check_fields_ok
         Htruthy Hiter Hbuild.
  unfold prepare. rewrite Ht, Hn. simpl. rewrite Hft. simpl. rewrite Hin. simpl.
  rewrite Htruthy, Hiter. simpl. by rewrite Hbuild.
Qed.

Lemma prepare_default data total_amount num_people :
  check_fields float_of_string int_of_string data
    = Returns (inr (total_amount, num_people)) ->
  truthy (dict_get_default "participants" (JList []) data) = false ->
  prepare float_of_string int_of_string data
  = Returns (List.map
               (fun i => mkParticipant ("Person " +:+ pretty (i + 1)%nat)
                           (total_amount / inject_Z num_people) None 0)
               (seq 0 (Z.to_nat num_people)),
             total_amount).
Proof.
  intros (v_total & v_num & Ht & Hn & Hft & Hin & _ & _ & Hrange)%check_fields_ok
         Htruthy.
  unfold prepare. rewrite Ht, Hn. simpl. rewrite Hft. simpl. rewrite Hin. simpl.
  rewrite Htruthy. unfold default_participants, py_truediv.
  destruct (Z.eqb_spec num_people 0) as [H0|_]; [lia|]. done.
Qed.

Lemma accepted_participant_well_formed p_data participant :
  accepted_participant float_of_string p_data participant ->
  well_formed_participant participant.
Proof.
  intros (d & s & ph & _ & _ & Hname & _ & Hc & _ & Hph & ->).
  unfold well_formed_participant. simpl.
  split; [done|]. split; [done|]. split; [done|].
  destruct (String.eqb_spec ph "") as [->|Hne]; [done|].
  split; [done|]. by destruct Hph.
Qed.

Lemma sum_contribution_equal (names : nat -> string) c l :
  sum_contribution
    (List.map (fun i => mkParticipant (names i) c None 0) l)
  == inject_Z (Z.of_nat (length l)) * c.
Proof.
  induction l as [|i l IH].
  - change (0 == 0 * c). lra.
  - change (c + sum_contribution
                  (List.map (fun i => mkParticipant (names i) c None 0) l)
            == inject_Z (Z.of_nat (S (length l))) * c).
    rewrite IH, inject_nat_S. lra.
Qed.

(** What [create_expense] hands to the engine for an accepted request. *)
Lemma accepted_prepare data msg :
  validate_expense_data float_of_string int_of_string data = Returns (true, msg) ->
  msg = EmptyString /\
  exists participants total_amount,
    prepare float_of_string int_of_string data
      = Returns (participants, total_amount) /\
    check_fields float_of_string int_of_string data
      = Returns (inr (total_amount, Z.of_nat (length participants))) /\
    Forall well_formed_participant participants /\
    Qabs (sum_contribution participants - total_amount) <= 1 # 100 /\
    (truthy (dict_get_default "participants" (JList []) data) = false ->
     Forall (fun p => contribution p
                      == total_amount / inject_Z (Z.of_nat (length participants)))
            participants).
Proof.
  intros (-> & t & n & Hfields & Hcase)%validate_accepts. split; [done|].
  pose proof (check_fields_ok _ _ _ Hfields)
    as (v_total & v_num & _ & _ & _ & _ & Hmin & Hmax & Hrange).
  destruct Hcase as [Hfalsy|(Htruthy & items & tc & Hiter & Hlen & Hloop & Hnear)].
  - set (ps := List.map
                 (fun i => mkParticipant ("Person " +:+ pretty (i + 1)%nat)
                             (t / inject_Z n) None 0)
                 (seq 0 (Z.to_nat n))).
    assert (Hlen : Z.of_nat (length ps) = n).
    { unfold ps. rewrite length_map, length_seq. lia. }
    assert (Hn0 : 0 < inject_Z n).
    { change 0 with (inject_Z 0). rewrite <- Zlt_Qlt. lia. }
    exists ps, t. split; [by apply prepare_default|].
    split; [by rewrite Hlen|]. split; [|split].
    + unfold ps. apply List.Forall_map, Forall_forall. intros i _.
      unfold well_formed_participant. simpl.
      split; [done|]. split; [|done].
      apply Qle_shift_div_l; [done|]. unfold Config.MIN_AMOUNT in Hmin. lra.
    + assert (Hsum : sum_contribution ps == t).
      { unfold ps. rewrite sum_contribution_equal, length_seq, Z2Nat.id by lia.
        field. lra. }
      rewrite Hsum. apply Qabs_Qle_condition. split; lra.
    + intros _. rewrite Hlen. unfold ps.
      apply List.Forall_map, Forall_forall. intros i _. simpl. reflexivity.
  - destruct (check_participants_ok _ _ _ Hloop) as (ps & Hall & Hbuild & Hsum).
    assert (Hlen' : length ps = length items)
      by (symmetry; by eapply Forall2_length).
    exists ps, t. split; [by eapply prepare_explicit|].
    split; [by rewrite Hlen', Hlen|]. split; [|split].
    + apply Forall_forall. intros p Hp.
      apply list_elem_of_lookup_1 in Hp as [k Hk].
      destruct (Forall2_lookup_r _ _ _ _ _ Hall Hk) as (p_data & _ & Hacc).
      by eapply accepted_participant_well_formed.
    + assert (Heq : sum_contribution ps - t == tc - t) by lra.
      by rewrite Heq.
    + intros Hfalsy. congruence.
Qed.




End FlowFacts.

(** * Stored expenses *)

Lemma participant_of_dict_to_dict p :
  participant_of_dict (JDict (Participant_to_dict p)) = Returns p.
Proof. by destruct p as [n c [ph|] a]. Qed.

Lemma participants_of_dicts_to_dicts ps :
  participants_of_dicts (List.map (fun p => JDict (Participant_to_dict p)) ps)
  = Returns ps.
Proof.
  induction ps as [|p ps IH]; [done|].
  change (participants_of_dicts
            (JDict (Participant_to_dict p)
               :: List.map (fun p => JDict (Participant_to_dict p)) ps)
          = Returns (p :: ps)).
  cbn [participants_of_dicts]. rewrite participant_of_dict_to_dict.
  cbn [mbind outcome_bind]. rewrite IH. done.
Qed.

(** X10.  A participant written with [to_dict] and read back the way
    [database.py] reads a stored dict is the same participant: the name,
    the contribution, the phone number (also when there is none) and the
    [settlement_amount] survive; so does a whole list, in its order.  A dict
    that lacks the name, the contribution or the [settlement_amount] is not
    read: KeyError. *)
Theorem stored_participant_round_trip :
  (forall p, participant_of_dict (JDict (Participant_to_dict p)) = Returns p) /\
  (forall ps,
     participants_of_dicts (List.map (fun p => JDict (Participant_to_dict p)) ps)
     = Returns ps) /\
  (forall d,
     dict_get "name" d = None \/ dict_get "contribution" d = None \/
     dict_get "settlement_amount" d = None ->
     participant_of_dict (JDict d) = Raises KeyError).
Proof.
  split; [apply participant_of_dict_to_dict|].
  split; [apply participants_of_dicts_to_dicts|].
  intros d Hmissing. unfold participant_of_dict. simpl.
  destruct (dict_get "name" d) as [v1|]; [simpl|done].
  destruct (dict_get "contribution" d) as [v2|]; [simpl|done].
  destruct (dict_get "settlement_amount" d) as [v3|]; [|done].
  by destruct Hmissing as [?|[?|?]].
Qed.

Lemma find_snoc {A} (f : A -> bool) l x :
  List.find f (l ++ [x])
  = match List.find f l with
    | Some y => Some y
    | None => if f x then Some x else None
    end.
Proof.
  induction l as [|y l IH]; simpl; [done|]. by destruct (f y).
Qed.

Lemma find_id_none l i :
  Forall (fun r => (row_id r < i)%Z) l ->
  List.find (fun r => (row_id r =? i)%Z) l = None.
Proof.
  induction 1 as [|r l Hr _ IH]; simpl; [done|].
  destruct (Z.eqb_spec (row_id r) i); [lia|done].
Qed.



Section DatabaseFacts.

Variable datetime : Type.
Variable isoformat : datetime -> string.
Variable fromisoformat : string -> outcome datetime.

(** What the Python library gives: a datetime read back from its ISO text
    is the same datetime. *)
Hypothesis fromisoformat_isoformat :
  forall d, fromisoformat (isoformat d) = Returns d.

Lemma empty_database_ok : database_ok empty_database.
Proof. split; simpl; constructor. Qed.

Lemma save_expense_ok db expense :
  database_ok db -> database_ok (fst (save_expense datetime isoformat db expense)).
Proof.
  intros [Hids Hmax]. split; simpl.
  - rewrite fmap_app. simpl. apply NoDup_app. split; [done|]. split.
    + intros i (r & Heq & Hr)%list_elem_of_fmap Hnew.
      apply list_elem_of_singleton in Hnew.
      pose proof (proj1 (Forall_forall _ _) Hmax r Hr) as H. simpl in H. lia.
    + apply NoDup_singleton.
  - apply Forall_app. split.
    + eapply Forall_impl; [exact Hmax|]. intros r Hr. simpl in *. lia.
    + apply Forall_singleton. simpl. lia.
Qed.


Lemma get_saved_expense db expense :
  database_ok db ->
  get_expense_by_id datetime fromisoformat
    (fst (save_expense datetime isoformat db expense))
    (snd (save_expense datetime isoformat db expense))
  = Returns (Some (Expense.mk (Some (last_id db + 1)%Z)
                     (Expense.total_amount expense) (Expense.num_people expense)
                     (Expense.description expense) (Expense.created_at expense)
                     (Expense.participants expense))).
Proof.
  intros [_ Hmax]. unfold get_expense_by_id, select_by_id. simpl.
  rewrite find_snoc, find_id_none.
  2:{ eapply Forall_impl; [exact Hmax|]. intros r Hr. simpl in *. lia. }
  simpl. rewrite Z.eqb_refl. unfold expense_of_row. simpl.
  rewrite participants_of_dicts_to_dicts. simpl.
  by rewrite fromisoformat_isoformat.
Qed.

(** X11.  Saving gives the expense an id that no row has or ever had, one
    above the last one given; the expense is then found under that id as it
    was saved, with its participants and their balances, and every other id
    gives what it gave before. *)
Theorem save_then_get db expense :
  database_ok db ->
  let db' := fst (save_expense datetime isoformat db expense) in
  let expense_id := snd (save_expense datetime isoformat db expense) in
  expense_id = (last_id db + 1)%Z /\
  Forall (fun r => (row_id r < expense_id)%Z) (rows db) /\
  database_ok db' /\
  get_expense_by_id datetime fromisoformat db' expense_id
  = Returns (Some (Expense.mk (Some expense_id)
                     (Expense.total_amount expense) (Expense.num_people expense)
                     (Expense.description expense) (Expense.created_at expense)
                     (Expense.participants expense))) /\
  forall other, other <> expense_id ->
    get_expense_by_id datetime fromisoformat db' other
    = get_expense_by_id datetime fromisoformat db other.
Proof.
  intros Hok db' expense_id. split; [done|]. split.
  { destruct Hok as [_ Hmax]. eapply Forall_impl; [exact Hmax|].
    intros r Hr. unfold expense_id. simpl in *. lia. }
  split; [by apply save_expense_ok|]. split; [by apply get_saved_expense|].
  intros other Hother. unfold get_expense_by_id, select_by_id, db'. simpl.
  rewrite find_snoc.
  destruct (List.find (fun r => (row_id r =? other)%Z) (rows db)); [done|].
  simpl. destruct (Z.eqb_spec (last_id db + 1) other) as [Heq|_]; [|done].
  exfalso. apply Hother. unfold expense_id. simpl. lia.
Qed.


End DatabaseFacts.

Section GetExpenseFacts.

Variable datetime : Type.
Variable isoformat : datetime -> string.
Variable fromisoformat : string -> outcome datetime.

Hypothesis fromisoformat_isoformat :
  forall d, fromisoformat (isoformat d) = Returns d.

(** X13.  An expense saved with the participants the engine returned is
    shown by [get_expense] with the transfers the engine emitted then, in
    the same order, and with the same participants and balances: the
    recalculation from the stored participants changes nothing.  An id that
    is not in the table gives 404. *)
Theorem get_expense_after_save db expense participants ts :
  database_ok db ->
  calculate_settlements participants (Expense.total_amount expense)
    = Returns (Expense.participants expense, ts) ->
  let db' := fst (save_expense datetime isoformat db expense) in
  let expense_id := snd (save_expense datetime isoformat db expense) in
  get_expense datetime fromisoformat db' expense_id
  = Found datetime
      (Expense.mk (Some expense_id)
         (Expense.total_amount expense) (Expense.num_people expense)
         (Expense.description expense) (Expense.created_at expense)
         (Expense.participants expense))
      (List.map Settlement_to_dict ts) /\
  forall other,
    select_by_id db' other = None ->
    get_expense datetime fromisoformat db' other = NotFound datetime.
Proof.
  intros Hok Hrun db' expense_id. split.
  - unfold get_expense, db', expense_id.
    rewrite (get_saved_expense datetime isoformat fromisoformat
               fromisoformat_isoformat db expense Hok).
    cbn [Expense.participants Expense.total_amount Expense.id
         Expense.num_people Expense.description Expense.created_at].
    assert (Hagain :
      calculate_settlements (Expense.participants expense)
                            (Expense.total_amount expense)
      = Returns (Expense.participants expense, ts)).
    { rewrite <- Hrun. symmetry. apply calculate_settlements_same_input.
      by eapply calculate_settlements_keeps_input. }
    by rewrite Hagain.
  - intros other Hnone. unfold get_expense, get_expense_by_id.
    by rewrite Hnone.
Qed.

End GetExpenseFacts.

(** * The months of the history *)

Lemma pair_ltb_spec a b : pair_ltb a b = true <-> pair_lt a b.
Proof.
  unfold pair_ltb, pair_lt.
  rewrite orb_true_iff, andb_true_iff, !Z.ltb_lt, Z.eqb_eq. done.
Qed.

Lemma pair_lt_trans a b c : pair_lt a b -> pair_lt b c -> pair_lt a c.
Proof. unfold pair_lt. intros [?|[? ?]] [?|[? ?]]; [left|left|left|right]; lia. Qed.

Lemma pair_lt_total a b : a <> b -> ~ pair_lt a b -> pair_lt b a.
Proof.
  destruct a as [y m], b as [y' m']. unfold pair_lt. simpl. intros Hne Hn.
  destruct (Z.lt_trichotomy y y') as [?|[->|?]]; [exfalso; apply Hn; by left| |by left].
  destruct (Z.lt_trichotomy m m') as [?|[->|?]];
    [exfalso; apply Hn; by right|done|by right].
Qed.

Lemma insert_pair_desc_perm x l : insert_pair_desc x l ≡ₚ x :: l.
Proof.
  induction l as [|y l IH]; simpl; [done|].
  destruct (pair_ltb x y); [|done]. rewrite IH. apply Permutation_swap.
Qed.

Lemma sorted_pairs_desc_perm l : sorted_pairs_desc l ≡ₚ l.
Proof.
  induction l as [|x l IH]; simpl; [done|].
  by rewrite insert_pair_desc_perm, IH.
Qed.

Lemma insert_pair_desc_sorted x l :
  x ∉ l ->
  StronglySorted (flip pair_lt) l ->
  StronglySorted (flip pair_lt) (insert_pair_desc x l).
Proof.
  intros Hx Hs. induction Hs as [|y l Hs IH Hy]; simpl.
  - repeat constructor.
  - apply not_elem_of_cons in Hx as [Hxy Hx].
    destruct (pair_ltb x y) eqn:Hlt.
    + apply pair_ltb_spec in Hlt. constructor; [by apply IH|].
      rewrite insert_pair_desc_perm. by constructor.
    + assert (Hyx : pair_lt y x).
      { apply pair_lt_total; [done|]. intros H%pair_ltb_spec. congruence. }
      constructor; [by constructor|]. constructor; [done|].
      eapply Forall_impl; [exact Hy|]. intros z Hz. unfold flip in *.
      by eapply pair_lt_trans.
Qed.

Lemma sorted_pairs_desc_sorted l :
  NoDup l -> StronglySorted (flip pair_lt) (sorted_pairs_desc l).
Proof.
  induction 1 as [|x l Hx _ IH]; simpl; [constructor|].
  apply insert_pair_desc_sorted; [|done]. by rewrite sorted_pairs_desc_perm.
Qed.

(** X14.  The months of the history are the (year, month) pairs of the
    expenses, each pair once however many expenses it has, the latest
    first: the list is strictly decreasing in the order of pairs. *)
Theorem history_months_sorted_complete {datetime}
    (year_of month_of : datetime -> Z) (expenses : list (Expense.t datetime)) :
  StronglySorted (flip pair_lt) (history_months datetime year_of month_of expenses) /\
  NoDup (history_months datetime year_of month_of expenses) /\
  forall y m,
    (y, m) ∈ history_months datetime year_of month_of expenses <->
    exists e, e ∈ expenses /\
              year_of (Expense.created_at e) = y /\
              month_of (Expense.created_at e) = m.
Proof.
  unfold history_months. split; [|split].
  - apply sorted_pairs_desc_sorted, NoDup_remove_dups.
  - rewrite sorted_pairs_desc_perm. apply NoDup_remove_dups.
  - intros y m. rewrite sorted_pairs_desc_perm, elem_of_remove_dups.
    rewrite list_elem_of_In, List.in_map_iff. split.
    + intros (e & [= <- <-] & He). exists e. by rewrite list_elem_of_In.
    + intros (e & He & <- & <-). exists e. by rewrite <- list_elem_of_In.
Qed.

(** * Amounts in whole cents *)

Lemma is_cents_plus a b : is_cents a -> is_cents b -> is_cents (a + b).
Proof.
  intros [x Hx] [y Hy]. exists (x + y)%Z. rewrite inject_Z_plus, Hx, Hy. ring.
Qed.

Lemma is_cents_opp a : is_cents a -> is_cents (- a).
Proof.
  intros [x Hx]. exists (- x)%Z. rewrite inject_Z_opp, Hx. ring.
Qed.

Lemma is_cents_minus a b : is_cents a -> is_cents b -> is_cents (a - b).
Proof. intros Ha Hb. apply is_cents_plus; [done|by apply is_cents_opp]. Qed.

Lemma is_cents_abs a : is_cents a -> is_cents (Qabs a).
Proof.
  intros Ha. apply Qabs_case; intros _; [done|by apply is_cents_opp].
Qed.

Lemma is_cents_min a b : is_cents a -> is_cents b -> is_cents (py_min a b).
Proof. intros Ha Hb. by destruct (py_min_spec a b) as [[-> _]|[-> _]]. Qed.

(** A whole number of cents strictly within one cent of zero is zero. *)
Lemma is_cents_small a : is_cents a -> - eps < a -> a < eps -> a == 0.
Proof.
  intros [z Hz] Hlo Hhi. unfold eps in *.
  assert (H1 : inject_Z (-1) < inject_Z z)
    by (change (inject_Z (-1)) with (-1); lra).
  assert (H2 : inject_Z z < inject_Z 1)
    by (change (inject_Z 1) with 1; lra).
  rewrite <- Zlt_Qlt in H1, H2.
  assert (z = 0%Z) as -> by lia. rewrite Hz. ring.
Qed.

Lemma sum_bal_nonneg_zero store :
  Forall (fun p => 0 <= settlement_amount p) store ->
  sum_bal store == 0 ->
  Forall (fun p => settlement_amount p == 0) store.
Proof.
  induction 1 as [|p store Hp Hall IH]; [constructor|].
  rewrite sum_bal_cons. intros Hsum.
  assert (Hrest : 0 <= sum_bal store).
  { clear -Hall. induction Hall as [|q store Hq _ IH];
      [by vm_compute|rewrite sum_bal_cons; lra]. }
  constructor; [lra|]. apply IH. lra.
Qed.

Lemma sum_bal_nonpos_zero store :
  Forall (fun p => settlement_amount p <= 0) store ->
  sum_bal store == 0 ->
  Forall (fun p => settlement_amount p == 0) store.
Proof.
  induction 1 as [|p store Hp Hall IH]; [constructor|].
  rewrite sum_bal_cons. intros Hsum.
  assert (Hrest : sum_bal store <= 0).
  { clear -Hall. induction Hall as [|q store Hq _ IH];
      [by vm_compute|rewrite sum_bal_cons; lra]. }
  constructor; [lra|]. apply IH. lra.
Qed.

Section MatchingCents.

Variable store0 : list Participant.
Variables debtors creditors : list nat.

Hypothesis debtors_spec :
  forall k, k ∈ debtors -> (k < length store0)%nat /\ bal store0 k < - eps.
Hypothesis creditors_spec :
  forall k, k ∈ creditors -> (k < length store0)%nat /\ eps < bal store0 k.

Lemma all_cents_step st :
  inv store0 debtors creditors st -> all_cents st ->
  loop_cond debtors creditors st = true ->
  all_cents (loop_body debtors creditors st).
Proof.
  intros Hinv Hcents Hcond.
  destruct (loop_cond_current debtors creditors st Hcond)
    as (d & c & Hd & Hc & _).
  pose proof (list_elem_of_lookup_2 _ _ _ Hd) as Hdin.
  pose proof (list_elem_of_lookup_2 _ _ _ Hc) as Hcin.
  pose proof (debtor_not_creditor store0 debtors creditors
                debtors_spec creditors_spec _ _ Hdin Hcin) as Hne.
  destruct (debtors_spec _ Hdin) as [Hdl _].
  destruct (creditors_spec _ Hcin) as [Hcl _].
  rewrite <- (inv_length _ _ _ _ Hinv) in Hdl, Hcl.
  destruct (loop_body_facts debtors creditors st d c Hd Hc Hne Hdl Hcl)
    as (_ & Hbd & Hbc & Hoth & _).
  assert (Ha : is_cents (py_min (Qabs (bal (st_store st) d)) (bal (st_store st) c)))
    by (apply is_cents_min; [apply is_cents_abs|]; apply Hcents).
  intros k.
  destruct (decide (k = d)) as [->|Hkd]; [|destruct (decide (k = c)) as [->|Hkc]].
  - rewrite Hbd. by apply is_cents_plus.
  - rewrite Hbc. by apply is_cents_minus.
  - assert (Hk : bal (st_store (loop_body debtors creditors st)) k
                 = bal (st_store st) k)
      by (unfold bal; by rewrite (Hoth k Hkd Hkc)).
    rewrite Hk. apply Hcents.
Qed.

End MatchingCents.

Lemma whole_cents_returned_zero participants total ps' ts :
  sum_contribution participants == total ->
  Forall (fun p =>
            is_cents (contribution p - share participants total) /\
            ~ contribution p - share participants total == eps /\
            ~ contribution p - share participants total == - eps)
         participants ->
  calculate_settlements participants total = Returns (ps', ts) ->
  Forall (fun p' => settlement_amount p' == 0) ps'.
Proof.
  intros Hsum Hcents Hrun.
  destruct participants as [|q qs]; [by injection Hrun as <- <-|].
  set (store := step2 (q :: qs) total).
  assert (Hstore : forall k, (k < length store)%nat ->
            is_cents (bal store k) /\ ~ bal store k == eps /\
            ~ bal store k == - eps).
  { intros k Hk. unfold store in Hk. rewrite step2_length in Hk.
    destruct (lookup_lt_is_Some_2 _ _ Hk) as [p Hp].
    unfold store. rewrite (step2_bal _ _ _ _ Hp).
    apply (proj1 (Forall_lookup _ _) Hcents k p Hp). }
  destruct (calculate_settlements_run (q :: qs) total all_cents)
    as (st & Hst & Hinv & Hall & Hcond); [done| | |].
  { intros k. fold store. cbn [init st_store].
    destruct (Nat.lt_ge_cases k (length store)) as [Hk|Hk];
      [by apply Hstore|].
    unfold bal. rewrite list_lookup_total_alt.
    rewrite (proj2 (lookup_ge_None _ _) Hk). exists 0%Z. by vm_compute. }
  { intros st Hinv Hall Hcond.
    apply (all_cents_step store (debtors_of store) (creditors_of store)
             (fun k H => proj1 (debtors_of_spec store k) H)
             (fun k H => proj1 (creditors_of_spec store k) H)
             st Hinv Hall Hcond). }
  pose proof (returned_sum_bal _ _ _ _ Hsum Hrun) as Hsum0.
  rewrite Hst in Hrun. injection Hrun as <- <-. fold store in Hinv, Hcond.
  (* every balance is zero, or of the sign of the side that is left *)
  assert (Hbal : forall k q', st_store st !! k = Some q' ->
            settlement_amount q' = bal (st_store st) k /\
            (k < length store)%nat).
  { intros k q' Hq. split.
    - unfold bal. by rewrite (list_lookup_total_correct _ _ _ Hq).
    - rewrite <- (inv_length _ _ _ _ Hinv). by eapply lookup_lt_Some. }
  assert (Hother : forall k, (k < length store)%nat ->
            k ∉ debtors_of store -> k ∉ creditors_of store ->
            bal (st_store st) k == 0).
  { intros k Hk HD HC. unfold bal at 1.
    rewrite (inv_others _ _ _ _ Hinv k HD HC). fold (bal store k).
    destruct (Hstore k Hk) as (Hc & Hne1 & Hne2).
    rewrite debtors_of_spec in HD. rewrite creditors_of_spec in HC.
    apply is_cents_small; [done| |].
    - destruct (Qlt_le_dec (- eps) (bal store k)) as [|Hle]; [done|].
      exfalso. destruct (Qlt_le_dec (bal store k) (- eps)) as [Hlt|Hge];
        [by apply HD|]. apply Hne2. lra.
    - destruct (Qlt_le_dec (bal store k) eps) as [|Hle]; [done|].
      exfalso. destruct (Qlt_le_dec eps (bal store k)) as [Hlt|Hge];
        [by apply HC|]. apply Hne1. lra. }
  unfold loop_cond in Hcond. apply andb_false_iff in Hcond.
  rewrite !Nat.ltb_ge in Hcond. destruct Hcond as [Hi|Hj].
  - apply sum_bal_nonneg_zero; [|done].
    apply Forall_lookup. intros k q' Hq. destruct (Hbal k q' Hq) as [-> Hk].
    destruct (decide (k ∈ debtors_of store)) as [HD|HD].
    + apply list_elem_of_lookup_1 in HD as [pos Hpos].
      destruct (inv_debtors _ _ _ _ Hinv _ _ Hpos) as [Hbehind _].
      pose proof (lookup_lt_Some _ _ _ Hpos).
      destruct Hbehind as [Hlo Hhi]; [lia|].
      assert (H0 : bal (st_store st) k == 0)
        by (apply is_cents_small; [apply Hall|done|unfold eps; lra]).
      lra.
    + destruct (decide (k ∈ creditors_of store)) as [HC|HC].
      * apply list_elem_of_lookup_1 in HC as [pos Hpos].
        destruct (inv_creditors _ _ _ _ Hinv _ _ Hpos) as [Hbehind Hahead].
        destruct (Nat.lt_ge_cases pos (st_j st)) as [Hlt|Hge].
        -- by destruct (Hbehind Hlt).
        -- specialize (Hahead Hge). unfold eps in *. lra.
      * rewrite (Hother k Hk HD HC). lra.
  - apply sum_bal_nonpos_zero; [|done].
    apply Forall_lookup. intros k q' Hq. destruct (Hbal k q' Hq) as [-> Hk].
    destruct (decide (k ∈ creditors_of store)) as [HC|HC].
    + apply list_elem_of_lookup_1 in HC as [pos Hpos].
      destruct (inv_creditors _ _ _ _ Hinv _ _ Hpos) as [Hbehind _].
      pose proof (lookup_lt_Some _ _ _ Hpos).
      destruct Hbehind as [Hlo Hhi]; [lia|].
      assert (H0 : bal (st_store st) k == 0)
        by (apply is_cents_small; [apply Hall|unfold eps; lra|done]).
      lra.
    + destruct (decide (k ∈ debtors_of store)) as [HD|HD].
      * apply list_elem_of_lookup_1 in HD as [pos Hpos].
        destruct (inv_debtors _ _ _ _ Hinv _ _ Hpos) as [Hbehind Hahead].
        destruct (Nat.lt_ge_cases pos (st_i st)) as [Hlt|Hge].
        -- by destruct (Hbehind Hlt).
        -- specialize (Hahead Hge). unfold eps in *. lra.
      * rewrite (Hother k Hk HD HC). lra.
Qed.

(** X15.  Whole cents are settled exactly.  When the contributions sum to
    the total and every step-2 balance is a whole number of cents other than
    one cent up or down, the engine returns every participant with the
    balance 0; with pairwise distinct names, what each participant receives
    less what it pays is then exactly its step-2 balance
    [contribution - share]. *)
Theorem whole_cents_settled_exactly participants total ps' ts :
  sum_contribution participants == total ->
  Forall (fun p =>
            is_cents (contribution p - share participants total) /\
            ~ contribution p - share participants total == eps /\
            ~ contribution p - share participants total == - eps)
         participants ->
  calculate_settlements participants total = Returns (ps', ts) ->
  Forall (fun p' => settlement_amount p' == 0) ps' /\
  (NoDup (name <$> participants) ->
   forall k p, participants !! k = Some p ->
     net ts (name p) == contribution p - share participants total).
Proof.
  intros Hsum Hcents Hrun.
  pose proof (whole_cents_returned_zero _ _ _ _ Hsum Hcents Hrun) as Hzero.
  split; [done|].
  intros Hnames k p Hk.
  destruct (net_plus_residual _ _ _ _ _ _ Hnames Hrun Hk) as (p' & Hp' & Hnet).
  pose proof (proj1 (Forall_lookup _ _) Hzero k p' Hp') as H0. simpl in H0.
  lra.
Qed.

Lemma whole_cents_settled_exactly_witness :
  exists ps' ts,
    calculate_settlements Examples.abc 90 = Returns (ps', ts) /\
    Forall (fun p' => settlement_amount p' == 0) ps'.
Proof.
  eexists _, _. split; [by vm_compute|].
  eapply (whole_cents_settled_exactly Examples.abc 90).
  - by vm_compute.
  - repeat constructor.
    + exists (-3000)%Z. by vm_compute.
    + by vm_compute.
    + by vm_compute.
    + exists 0%Z. by vm_compute.
    + by vm_compute.
    + by vm_compute.
    + exists 3000%Z. by vm_compute.
    + by vm_compute.
    + by vm_compute.
  - by vm_compute.
Defined.

(** * Malformed participants *)

Section MalformedFacts.

Variable float_of_string : string -> option Q.
Variable int_of_string : string -> option Z.

Lemma validate_loop_raises data total_amount num_people v items e :
  check_fields float_of_string int_of_string data
    = Returns (inr (total_amount, num_people)) ->
  dict_get "participants" data = Some v ->
  truthy v = true ->
  py_iter v = Returns items ->
  Z.of_nat (length items) = num_people ->
  check_participants float_of_string items 0 = Raises e ->
  validate_expense_data float_of_string int_of_string data = Raises e.
Proof.
  intros Hfields Hps Htruthy Hiter Hlen Hloop.
  unfold validate_expense_data. rewrite Hfields. simpl.
  unfold dict_get_default. rewrite Hps. simpl. rewrite Htruthy, Hiter. simpl.
  rewrite Hlen, Z.eqb_refl. simpl. by rewrite Hloop.
Qed.

Lemma validate_first_participant data total_amount num_people p rest e :
  check_fields float_of_string int_of_string data
    = Returns (inr (total_amount, num_people)) ->
  dict_get "participants" data = Some (JList (p :: rest)) ->
  Z.of_nat (length (p :: rest)) = num_people ->
  check_participant float_of_string p 0 = Raises e ->
  validate_expense_data float_of_string int_of_string data = Raises e /\
  create_expense float_of_string int_of_string data = ([], ServerError e).
Proof.
  intros Hfields Hps Hlen Hp.
  assert (Hv : validate_expense_data float_of_string int_of_string data = Raises e).
  { eapply validate_loop_raises; [done|done|done|done|done|].
    cbn [check_participants]. by rewrite Hp. }
  split; [done|]. unfold create_expense. by rewrite Hv.
Qed.

(** X16.  A request that passes the checks of the fields and lists the
    announced number of participants, the first of which is an object whose
    name is there but is not a string, or which has a good name and
    contribution but a phone number that is not a string (a JSON null, a
    number), is not rejected with a message: [validate_expense_data] raises
    AttributeError and [create_expense] answers 500. *)
Theorem malformed_participant_not_rejected data total_amount num_people d rest :
  check_fields float_of_string int_of_string data
    = Returns (inr (total_amount, num_people)) ->
  dict_get "participants" data = Some (JList (JDict d :: rest)) ->
  Z.of_nat (length (JDict d :: rest)) = num_people ->
  (exists v, dict_get "name" d = Some v /\ forall s, v <> JStr s) \/
  (exists s c v,
     dict_get "name" d = Some (JStr s) /\ strip s <> EmptyString /\
     py_float float_of_string (dict_get_default "contribution" (JInt 0) d)
       = Returns c /\ 0 <= c /\
     dict_get "phone_number" d = Some v /\ forall ph, v <> JStr ph) ->
  validate_expense_data float_of_string int_of_string data
    = Raises AttributeError /\
  create_expense float_of_string int_of_string data
    = ([], ServerError AttributeError).
Proof.
  intros Hfields Hps Hlen Hbad.
  eapply validate_first_participant; [done..|].
  unfold check_participant. simpl.
  destruct Hbad as [(v & Hname & Hv)|(s & c & v & Hname & Hs & Hc & Hc0 & Hph & Hv)].
  - rewrite Hname. simpl. destruct v; try done. by destruct (Hv s).
  - rewrite Hname. simpl. destruct (strip s) eqn:Hstrip; [done|].
    rewrite Hc. simpl. rewrite decide_False by by apply Qle_not_lt. simpl.
    unfold dict_get_default. rewrite Hph. simpl.
    destruct v; try done. by destruct (Hv s1).
Qed.

End MalformedFacts.

(** * The further theorems at the example inputs *)



Lemma malformed_participant_not_rejected_witness :
  create_expense Examples.float_of_string Examples.int_of_string
    [("total_amount"%string, JFloat 90); ("num_people"%string, JInt 1);
     ("participants"%string,
      JList [JDict [("name"%string, JInt 7)]])]
  = ([], ServerError AttributeError).
Proof.
  eapply (malformed_participant_not_rejected Examples.float_of_string
            Examples.int_of_string _ 90 1%Z [("name"%string, JInt 7)] []).
  - by vm_compute.
  - reflexivity.
  - reflexivity.
  - left. exists (JInt 7). split; [reflexivity|done].
Defined.

Lemma save_then_get_witness :
  let expense :=
    Expense.mk None 90 3 "dinner"%string "2024-05-01T12:00:00"%string
               Examples.abc in
  get_expense_by_id string Returns
    (fst (save_expense string (fun s => s) empty_database expense)) 1
  = Returns (Some (Expense.mk (Some 1%Z) 90 3 "dinner"%string
                     "2024-05-01T12:00:00"%string Examples.abc)).
Proof.
  intros expense.
  destruct (save_then_get string (fun s => s) Returns (fun d => eq_refl)
              empty_database expense empty_database_ok) as (_ & _ & _ & Hget & _).
  exact Hget.
Defined.


Lemma get_expense_after_save_witness :
  exists ps' ts,
    calculate_settlements Examples.abc 90 = Returns (ps', ts) /\
    get_expense string Returns
      (fst (save_expense string (fun s => s) empty_database
              (Expense.mk None 90 3 "dinner"%string
                          "2024-05-01T12:00:00"%string ps')))
      1
    = Found string
        (Expense.mk (Some 1%Z) 90 3 "dinner"%string
                    "2024-05-01T12:00:00"%string ps')
        (List.map Settlement_to_dict ts).
Proof.
  eexists _, _. split; [by vm_compute|].
  refine (proj1 (get_expense_after_save string (fun s => s) Returns
                   (fun d => eq_refl) empty_database
                   (Expense.mk None 90 3 "dinner"%string
                               "2024-05-01T12:00:00"%string _)
                   Examples.abc _ empty_database_ok _)).
  by vm_compute.
Defined.

(** * Notifications after the engine *)

Lemma details_not_owe participant settlements :
  - eps <= settlement_amount participant ->
  String.prefix "You owe" (notification_details participant settlements) = false.
Proof.
  intros Hge. unfold notification_details.
  destruct (decide (eps < settlement_amount participant)); [done|].
  destruct (decide (settlement_amount participant < - eps)); [lra|done].
Qed.

Lemma details_not_get_back participant settlements :
  settlement_amount participant <= eps ->
  String.prefix "You get back" (notification_details participant settlements)
  = false.
Proof.
  intros Hle. unfold notification_details.
  destruct (decide (eps < settlement_amount participant)); [lra|].
  by destruct (decide (settlement_amount participant < - eps)).
Qed.

Lemma details_settled participant settlements :
  settlement_amount participant == 0 ->
  notification_details participant settlements
  = ("You're all settled up! No payments needed." +:+ nl)%string.
Proof.
  intros H0. unfold notification_details, eps.
  destruct (decide ((1 # 100) < settlement_amount participant)); [lra|].
  destruct (decide (settlement_amount participant < - (1 # 100))); [lra|done].
Qed.

(** X17.  [create_expense] notifies the participants as the engine returned
    them, so the messages speak of the balances the matching loop has left.
    Among the messages of one expense, either none says "You owe" or none
    says "You get back".  When the contributions sum to the total and the
    step-2 balances are whole cents other than one cent up or down, every
    message says "You're all settled up! No payments needed." and lists no
    transfer, whatever transfers the engine has emitted. *)
Theorem notifications_after_engine participants total ps' ts :
  calculate_settlements participants total = Returns (ps', ts) ->
  (Forall (fun p' => String.prefix "You owe" (notification_details p' ts) = false)
          ps' \/
   Forall (fun p' => String.prefix "You get back" (notification_details p' ts)
                     = false) ps') /\
  (sum_contribution participants == total ->
   Forall (fun p =>
             is_cents (contribution p - share participants total) /\
             ~ contribution p - share participants total == eps /\
             ~ contribution p - share participants total == - eps)
          participants ->
   Forall (fun p' => forall month,
             notification_message p' ts month
             = ("Hi " +:+ name p' +:+ "! Your expense split for " +:+ month +:+
                " is ready." +:+ nl +:+ nl +:+
                "You're all settled up! No payments needed." +:+ nl +:+
                nl +:+ "Reply CONFIRM to acknowledge.")%string) ps').
Proof.
  intros Hrun. split.
  - destruct (returned_between _ _ _ _ Hrun) as [_ [Hside|Hside]]; [left|right];
      (eapply Forall_impl; [exact Hside|]); intros p' Hp'; simpl in Hp'.
    + by apply details_not_owe.
    + by apply details_not_get_back.
  - intros Hsum Hcents.
    pose proof (whole_cents_returned_zero _ _ _ _ Hsum Hcents Hrun) as Hzero.
    eapply Forall_impl; [exact Hzero|]. intros p' Hp' month. simpl in Hp'.
    unfold notification_message. by rewrite (details_settled p' ts Hp').
Qed.

Lemma notifications_after_engine_witness :
  exists ps' ts,
    calculate_settlements Examples.abc 90 = Returns (ps', ts) /\
    (Forall (fun p' => String.prefix "You owe" (notification_details p' ts)
                       = false) ps' \/
     Forall (fun p' => String.prefix "You get back" (notification_details p' ts)
                       = false) ps').
Proof.
  eexists _, _. split; [by vm_compute|].
  eapply (notifications_after_engine Examples.abc 90). by vm_compute.
Defined.

(** X18.  [send_whatsapp_notification] hands a message to Twilio only when
    the credentials are configured and the participant has a phone number
    that is not empty; the address is then ["whatsapp:+"] followed by digits
    only (11 to 15 of them for a number [validate_phone_number] accepts),
    the body is the notification message and the result is the one of the
    delivery.  In every other case it returns [False] and nothing is
    sent. *)
Theorem notification_delivery configured deliver participant settlements month :
  match send_whatsapp_notification configured deliver participant settlements
          month with
  | (result, None) =>
      result = false /\
      (configured = false \/ phone_number participant = None \/
       phone_number participant = Some EmptyString)
  | (result, Some (address, body)) =>
      configured = true /\
      exists phone digits,
        phone_number participant = Some phone /\ phone <> EmptyString /\
        address = ("whatsapp:+" +:+ digits)%string /\
        all_digits digits = true /\
        (validate_phone_number phone = true ->
         (11 <= String.length digits <= 15)%nat) /\
        body = notification_message participant settlements month /\
        result = deliver address body
  end.
Proof.
  unfold send_whatsapp_notification.
  destruct configured; simpl; [|by split; [|left]].
  destruct (phone_number participant) as [phone|]; [|by split; [|right; left]].
  destruct (decide (phone = EmptyString)) as [->|Hne];
    [simpl; by split; [|right; right]|].
  destruct (format_phone_number_digits phone Hne)
    as (digits & -> & Hall & _ & Hvalid).
  split; [done|]. by exists phone, digits.
Qed.

Section NotifiedFacts.

Variable float_of_string : string -> option Q.
Variable int_of_string : string -> option Z.

(** X19.  Whoever [create_expense] asks a notification for is a participant
    the engine returned, for a request that was accepted (the response is
    201), and has a phone number that [validate_phone_number] accepted: the
    notifier, when the credentials are configured, hands the message of
    this participant to Twilio for the address ["whatsapp:+"] followed by
    11 to 15 digits, and returns what the delivery gives. *)
Theorem notified_participants_addressed data events resp participant :
  create_expense float_of_string int_of_string data = (events, resp) ->
  NotificationRequested participant ∈ events ->
  exists ps' settlements phone digits,
    resp = Created ps' settlements /\
    participant ∈ ps' /\
    phone_number participant = Some phone /\
    validate_phone_number phone = true /\
    all_digits digits = true /\
    (11 <= String.length digits <= 15)%nat /\
    forall deliver ts month,
      send_whatsapp_notification true deliver participant ts month
      = (deliver ("whatsapp:+" +:+ digits)%string
           (notification_message participant ts month),
         Some (("whatsapp:+" +:+ digits)%string,
               notification_message participant ts month)).
Proof.
  unfold create_expense. intros Hce Hin.
  destruct (validate_expense_data float_of_string int_of_string data)
    as [[[|] msg]|e|] eqn:Hv;
    try (injection Hce as <- <-; by apply elem_of_nil in Hin).
  destruct (accepted_prepare _ _ _ _ Hv) as (_ & ps & t & Hprep & _ & Hwf & _).
  destruct (calculate_settlements_returns ps t) as (ps' & ts & Hrun).
  rewrite Hprep, Hrun in Hce. injection Hce as <- <-.
  pose proof (calculate_settlements_keeps_input _ _ _ _ Hrun) as Hsame.
  apply elem_of_cons in Hin as [Hin|Hin]; [done|].
  apply elem_of_cons in Hin as [Hin|Hin]; [done|].
  unfold notifications in Hin.
  destruct (truthy _); [|by apply elem_of_nil in Hin].
  apply list_elem_of_In, in_map_iff in Hin as (p & Heq & Hp).
  injection Heq as ->.
  apply filter_In in Hp as [Hp Hphone].
  apply list_elem_of_In, list_elem_of_lookup_1 in Hp as [k Hk].
  destruct (Forall2_lookup_r _ _ _ _ _ Hsame Hk) as (p0 & Hp0 & _ & _ & Hph).
  pose proof (proj1 (Forall_lookup _ _) Hwf _ _ Hp0) as (_ & _ & _ & Hwfp).
  rewrite Hph in Hwfp.
  destruct (phone_number participant) as [phone|] eqn:Hpn; [|done].
  destruct Hwfp as [Hne Hvalid].
  destruct (format_phone_number_digits phone Hne)
    as (digits & Hfmt & Hall & _ & Hrange).
  exists ps', (List.map Settlement_to_dict ts), phone, digits.
  split; [done|]. split; [by eapply list_elem_of_lookup_2|].
  split; [done|]. split; [done|]. split; [done|]. split; [by apply Hrange|].
  intros deliver ts' month. unfold send_whatsapp_notification.
  by rewrite Hpn, Hfmt.
Qed.

End NotifiedFacts.

Lemma notified_participants_addressed_witness :
  exists events resp participant,
    create_expense Examples.float_of_string Examples.int_of_string
      Examples.request_notify = (events, resp) /\
    NotificationRequested participant ∈ events /\
    exists phone, phone_number participant = Some phone /\
                  validate_phone_number phone = true.
Proof.
  destruct (create_expense Examples.float_of_string Examples.int_of_string
              Examples.request_notify) as [events resp] eqn:Hce.
  exists events, resp,
    (mkParticipant "C" 60 (Some "(555) 123-4567"%string) (0 # 9)).
  split; [done|].
  assert (Hin : NotificationRequested
                  (mkParticipant "C" 60 (Some "(555) 123-4567"%string) (0 # 9))
                ∈ events).
  { pose proof Hce as Hce'. vm_compute in Hce'. injection Hce' as <- _.
    apply elem_of_cons. right. apply elem_of_cons. right.
    apply elem_of_cons. by left. }
  split; [exact Hin|].
  destruct (notified_participants_addressed Examples.float_of_string
              Examples.int_of_string _ _ _ _ Hce Hin)
    as (_ & _ & phone & _ & _ & _ & Hpn & Hvalid & _).
  by exists phone.
Defined.
